(** * dvc-task: the serverless process manager

    A shallow embedding of [dvc_task/proc/manager.py] (class
    [ProcessManager]) together with the one function of
    [dvc_task/utils.py] it calls ([remove]), and the properties of the
    registry that follow from the code.

    The manager keeps no state of its own besides the path of its root
    directory: everything it reads and writes lives in the file system
    and in the process table of the operating system.  Both are modelled
    as one explicit [World] that every operation threads through; Python
    exceptions are modelled by an outcome that is either a returned value
    or a raised exception, and the effects performed before a raise are
    kept. *)

From stdpp Require Import gmap strings list fin_maps.
From Stdlib Require Import ZArith.

Local Open Scope Z_scope.

(** ** Constants of Python's [signal] and [errno] modules *)

Module signal.
Definition SIGKILL : Z := 9.
Definition SIGTERM : Z := 15.
(** The two below exist on Windows only. *)
Definition CTRL_C_EVENT : Z := 0.
Definition CTRL_BREAK_EVENT : Z := 1.
End signal.

Module errno.
Definition ENOENT : Z := 2.
Definition ESRCH : Z := 3.
Definition EPERM : Z := 1.
Definition EACCES : Z := 13.
Definition EINVAL : Z := 22.
End errno.

(** [stat.S_IWRITE], the owner's write bit, 0o200. *)
Module stat.
Definition S_IWRITE : Z := 128.
End stat.

(** [sys.platform == "win32"] is the only platform test of the module. *)
Inductive Platform := Posix | Win32.

(** ** Data *)

(** Modelled from the spec: [dvc_task/proc/process.py], which declares
    [ProcessInfo], is not among the sources.  The fields are those of the
    persisted record; the manager itself reads [pid] and [returncode] and
    writes [returncode]. *)
Record ProcessInfo := mkProcessInfo {
  pid : Z;
  stdin : option string;
  stdout : option string;
  stderr : option string;
  returncode : option Z;
  wdir : string
}.

(** [process_info.returncode = rc] *)
Definition set_returncode (rc : option Z) (p : ProcessInfo) : ProcessInfo :=
  {| pid := pid p; stdin := stdin p; stdout := stdout p; stderr := stderr p;
     returncode := rc; wdir := wdir p |}.

(** The exceptions that travel through the manager.  [OSError] stands for
    every [OSError] that is not a [ProcessLookupError]; it carries
    [errno] and, on Windows, [winerror]. *)
Inductive Exn :=
  | KeyError
  | JSONDecodeError
  | UnsupportedSignalError (sig : Z)
  | ProcessNotTerminatedError (name : string)
  | ProcessLookupError
  | OSError (err : Z) (winerror : option Z).

Inductive Outcome (A : Type) :=
  | Return (a : A)
  | Raise (e : Exn).
Arguments Return {A} a.
Arguments Raise {A} e.

(** ** The world: registry directory and process table *)

(** What [<name>.json] holds: text that [json.load] and
    [ProcessInfo.from_dict] decode to a record, which is what [json.dump]
    of [asdict()] writes, or text that is not JSON at all. *)
Inductive FileContent :=
  | JsonRecord (info : ProcessInfo)
  | NotJson (text : string).

(** One directory [<root>/<name>/]: the record file [<name>.json], when it
    exists, and the names of the other files the executor left there. *)
Record EntryDir := mkEntryDir {
  record_file : option FileContent;
  aux_files : list string
}.

(** A live process either accepts signals from us or belongs to someone
    else ([kill(2)] then answers EPERM, Windows answers access denied). *)
Inductive Owner := Ours | Foreign.

Record World := mkWorld {
  (** the children of [self.wdir], or [None] when it does not exist *)
  root : option (gmap string EntryDir);
  (** the processes that exist *)
  procs : gmap Z Owner;
  (** every [os.kill(pid, sig)] issued so far, latest first *)
  kill_log : list (Z * Z)
}.

Definition set_root (r : option (gmap string EntryDir)) (w : World) : World :=
  {| root := r; procs := procs w; kill_log := kill_log w |}.

(** The directory of an entry and the content of its record file. *)
Definition entry (w : World) (name : string) : option EntryDir :=
  root w ≫= (λ d, d !! name).

Definition record (w : World) (name : string) : option FileContent :=
  entry w name ≫= record_file.

(** ** A state and exception monad *)

Definition M (A : Type) : Type := World → Outcome A * World.

Definition ret {A} (a : A) : M A := λ w, (Return a, w).
Definition raise {A} (e : Exn) : M A := λ w, (Raise e, w).

Definition bind {A B} (k : A → M B) (m : M A) : M B := λ w,
  match m w with
  | (Return a, w') => k a w'
  | (Raise e, w') => (Raise e, w')
  end.

#[global] Instance M_ret : MRet M := @ret.
#[global] Instance M_bind : MBind M := @bind.

(** [try: m  except ...: h e] where [h] re-raises what it does not handle. *)
Definition try_except {A} (m : M A) (h : Exn → M A) : M A := λ w,
  match m w with
  | (Return a, w') => (Return a, w')
  | (Raise e, w') => h e w'
  end.

(** ** The operating system *)

(** [os.kill(pid, sig)].  A pid that names no process is ESRCH on POSIX
    ([ProcessLookupError]); on Windows the process cannot be opened and
    the call fails with ERROR_INVALID_PARAMETER (winerror 87), which
    Python raises as a plain [OSError].  A process of another owner gives
    [PermissionError], an [OSError] too.  Delivery is asynchronous: the
    table is left as it is. *)
Definition os_kill (plat : Platform) (p sig : Z) : M unit := λ w,
  let w' := {| root := root w; procs := procs w;
               kill_log := (p, sig) :: kill_log w |} in
  match procs w !! p with
  | None =>
      match plat with
      | Posix => (Raise ProcessLookupError, w')
      | Win32 => (Raise (OSError errno.EINVAL (Some 87)), w')
      end
  | Some Foreign =>
      match plat with
      | Posix => (Raise (OSError errno.EPERM None), w')
      | Win32 => (Raise (OSError errno.EACCES (Some 5)), w')
      end
  | Some Ours => (Return tt, w')
  end.

(** ** [dvc_task/utils.py] *)

(** [remove(path)] for [path = <root>/<key>]: the tree is removed, and a
    path that is not there (ENOENT) is not an error. *)
Definition remove_path (key : string) : M unit := λ w,
  (Return tt, set_root (delete key <$> root w) w).

(** ** [ProcessManager] *)

(** [__iter__]: nothing when the root does not exist, else [os.listdir]. *)
Definition __iter__ (w : World) : list string :=
  match root w with
  | None => []
  | Some d => (map_to_list d).*1
  end.

(** [__getitem__]: [FileNotFoundError] becomes [KeyError]; a decoding
    failure is not caught. *)
Definition __getitem__ (key : string) : M ProcessInfo := λ w,
  match record w key with
  | None => (Raise KeyError, w)
  | Some (JsonRecord info) => (Return info, w)
  | Some (NotJson _) => (Raise JSONDecodeError, w)
  end.

(** [__setitem__]: opening for writing creates or truncates the file but
    not its directory; [FileNotFoundError] is re-raised as [KeyError]. *)
Definition __setitem__ (key : string) (value : ProcessInfo) : M unit := λ w,
  match root w with
  | None => (Raise KeyError, w)
  | Some d =>
      match d !! key with
      | None => (Raise KeyError, w)
      | Some e =>
          (Return tt,
           set_root
             (Some (<[key := {| record_file := Some (JsonRecord value);
                                aux_files := aux_files e |}]> d)) w)
      end
  end.

(** [__delitem__] *)
Definition __delitem__ (key : string) : M unit := λ w,
  match entry w key with
  | Some _ => remove_path key w
  | None => (Return tt, w)
  end.

(** [get(key, default)] returns a record or the default. *)
Definition get {D : Type} (key : string) (default : D) : M (ProcessInfo + D) :=
  try_except
    (info ← __getitem__ key; ret (inl info))
    (λ e, match e with
          | KeyError => ret (inr default)
          | _ => raise e
          end).

(** [processes()] is a generator: what it has yielded when it stops, and
    how it stopped. *)
Fixpoint processes_from (names : list string) (w : World)
  : list (string * ProcessInfo) * Outcome unit :=
  match names with
  | [] => ([], Return tt)
  | name :: rest =>
      match __getitem__ name w with
      | (Return info, w') =>
          let '(ys, r) := processes_from rest w' in ((name, info) :: ys, r)
      | (Raise KeyError, w') => processes_from rest w'
      | (Raise e, _) => ([], Raise e)
      end
  end.

Definition processes (w : World) : list (string * ProcessInfo) * Outcome unit :=
  processes_from (__iter__ w) w.

(** [sig not in (SIGTERM, CTRL_C_EVENT, CTRL_BREAK_EVENT)] *)
Definition not_in_win32_signals (sig : Z) : bool :=
  negb (existsb (Z.eqb sig)
          [signal.SIGTERM; signal.CTRL_C_EVENT; signal.CTRL_BREAK_EVENT]).

(** The closure [handle_closed_process] of [send_signal]. *)
Definition handle_closed_process (name : string) (process_info : ProcessInfo)
  : M unit :=
  __setitem__ name (set_returncode (Some (-1)) process_info).

Definition send_signal (plat : Platform) (name : string) (sig : Z) : M unit :=
  process_info ← __getitem__ name;
  (match plat with
   | Win32 =>
       if not_in_win32_signals sig then raise (UnsupportedSignalError sig)
       else ret tt
   | Posix => ret tt
   end);;
  match returncode process_info with
  | None =>
      try_except (os_kill plat (pid process_info) sig)
        (λ e, match e with
              | ProcessLookupError =>
                  handle_closed_process name process_info;;
                  raise ProcessLookupError
              | OSError _ winerror =>
                  match plat with
                  | Win32 =>
                      if bool_decide (winerror = Some 87) then
                        handle_closed_process name process_info;;
                        raise ProcessLookupError
                      else raise e
                  | Posix => raise e
                  end
              | _ => raise e
              end)
  | Some _ => ret tt
  end.

Definition terminate (plat : Platform) (name : string) : M unit :=
  send_signal plat name signal.SIGTERM.

Definition kill (plat : Platform) (name : string) : M unit :=
  match plat with
  | Win32 => send_signal plat name signal.SIGTERM
  | Posix => send_signal plat name signal.SIGKILL
  end.

Definition remove (plat : Platform) (name : string) (force : bool) : M unit := λ w,
  match __getitem__ name w with
  | (Raise KeyError, w') => (Return tt, w')
  | (Raise e, w') => (Raise e, w')
  | (Return process_info, w') =>
      (if bool_decide (returncode process_info = None) && negb force
       then raise (ProcessNotTerminatedError name)
       else
         try_except (kill plat name)
           (λ e, match e with
                 | ProcessLookupError => ret tt
                 | _ => raise e
                 end);;
         __delitem__ name) w'
  end.

(** The loop of [cleanup] over the names [__iter__] produced. *)
Fixpoint cleanup_from (plat : Platform) (force : bool) (names : list string)
  : M unit :=
  match names with
  | [] => ret tt
  | name :: rest =>
      try_except (remove plat name force)
        (λ e, match e with
              | ProcessNotTerminatedError _ => ret tt
              | _ => raise e
              end);;
      cleanup_from plat force rest
  end.

Definition cleanup (plat : Platform) (force : bool) : M unit := λ w,
  cleanup_from plat force (__iter__ w) w.

(** ** [ProcessManager.__init__] and [ProcessManager.run] *)

(** [x or y] on an optional string: [None] and the empty string are
    false. *)
Definition py_or (x : option string) (y : string) : string :=
  match x with
  | Some s => if bool_decide (s = "") then y else s
  | None => y
  end.

(** [os.curdir] *)
Definition os_curdir : string := ".".

(** The command of a task: one string, or a list of arguments. *)
Inductive Command :=
  | CommandLine (line : string)
  | Argv (argv : list string).

(** What [celery.signature(task, args=..., kwargs=...)] records. *)
Record Signature := mkSignature {
  sig_task : string;
  sig_args : list Command;
  sig_kwargs : gmap string string
}.

Module ProcessManager.

(** [__init__] returns the [self.wdir] it sets. *)
Definition __init__ (wdir : option string) : string := py_or wdir os_curdir.

(** [run]; [join] is [os.path.join] and [uuid] the string that
    [shortuuid.uuid()] gives when it is called. *)
Definition run (join : string → string → string) (uuid : string)
    (self_wdir : string) (args : Command) (name task : option string)
  : Signature :=
  let name := py_or name uuid in
  let task := py_or task "dvc_task.proc.tasks.run" in
  {| sig_task := task;
     sig_args := [args];
     sig_kwargs := <["name" := name]> (<["wdir" := join self_wdir name]> ∅) |}.

End ProcessManager.

(** ** [dvc_task/utils.py]: [_chmod], [_unlink], [remove] *)

(** The calls of [os], [os.path] and [shutil] that [remove] makes, over the
    world.  [os_lstat] gives [os.lstat(p).st_mode]; [shutil_rmtree] takes
    the [onerror] handler, which itself takes the function that failed and
    the path it failed on. *)
Record FsApi := mkFsApi {
  os_path_isdir : string → World → bool;
  os_lstat : string → M Z;
  os_chmod : string → Z → M unit;
  os_unlink : string → M unit;
  shutil_rmtree : string → ((string → M unit) → string → M unit) → M unit
}.

(** [isinstance(exc, OSError)] and [exc.errno]. *)
Definition is_OSError (e : Exn) : bool :=
  match e with
  | OSError _ _ | ProcessLookupError => true
  | _ => false
  end.

Definition errno_of (e : Exn) : option Z :=
  match e with
  | OSError err _ => Some err
  | ProcessLookupError => Some errno.ESRCH
  | _ => None
  end.

Module utils.

Definition _chmod (fs : FsApi) (func : string → M unit) (p : string) : M unit :=
  perm ← os_lstat fs p;
  let perm := Z.lor perm stat.S_IWRITE in
  try_except (os_chmod fs p perm)
    (λ exc,
       if is_OSError exc then
         (* broken symlink or file is not owned by us *)
         if bool_decide (errno_of exc ∉ [Some errno.ENOENT; Some errno.EPERM])
         then raise exc
         else ret tt
       else raise exc);;
  func p.

Definition _unlink (fs : FsApi) (path : string)
    (onerror : (string → M unit) → string → M unit) : M unit :=
  try_except (os_unlink fs path)
    (λ exc, if is_OSError exc then onerror (os_unlink fs) path else raise exc).

Definition remove (fs : FsApi) (path : string) : M unit :=
  try_except
    (λ w, if os_path_isdir fs path w
          then shutil_rmtree fs path (_chmod fs) w
          else _unlink fs path (_chmod fs) w)
    (λ exc,
       if is_OSError exc then
         if bool_decide (errno_of exc ≠ Some errno.ENOENT) then raise exc
         else ret tt
       else raise exc).

End utils.

(** The registry directory as a file system without permissions: a path
    is the name of an entry, a directory when the entry exists;
    [shutil.rmtree] removes the directory with all it holds and the handler
    is never called; [os.lstat], [os.chmod] and [os.unlink] of a name that
    is not there raise [FileNotFoundError], and an entry directory cannot
    be unlinked. *)
Definition registry_fs : FsApi :=
  {| os_path_isdir := λ key w, bool_decide (is_Some (entry w key));
     os_lstat := λ key w,
       if bool_decide (is_Some (entry w key)) then (Return 16877, w)
       else (Raise (OSError errno.ENOENT None), w);
     os_chmod := λ key mode w,
       if bool_decide (is_Some (entry w key)) then (Return tt, w)
       else (Raise (OSError errno.ENOENT None), w);
     os_unlink := λ key w,
       if bool_decide (is_Some (entry w key))
       then (Raise (OSError errno.EPERM None), w)
       else (Raise (OSError errno.ENOENT None), w);
     shutil_rmtree := λ key onerror w,
       if bool_decide (is_Some (entry w key))
       then (Return tt, set_root (delete key <$> root w) w)
       else (Raise (OSError errno.ENOENT None), w) |}.

(** ** Registry operations as data *)

Inductive Op :=
  | SendSignal (name : string) (sig : Z)
  | Terminate (name : string)
  | Kill (name : string)
  | Remove (name : string) (force : bool)
  | Cleanup (force : bool).

Definition run (plat : Platform) (op : Op) : M unit :=
  match op with
  | SendSignal name sig => send_signal plat name sig
  | Terminate name => terminate plat name
  | Kill name => kill plat name
  | Remove name force => remove plat name force
  | Cleanup force => cleanup plat force
  end.

(** ** Vocabulary of the statements *)

(** The states of an entry as the registry sees them. *)
Definition unknown_live (w : World) (name : string) : Prop :=
  ∃ info, record w name = Some (JsonRecord info) ∧ returncode info = None.

Definition terminated (w : World) (name : string) : Prop :=
  ∃ info c, record w name = Some (JsonRecord info) ∧ returncode info = Some c.

(** The signal passes the platform's check. *)
Definition supported (plat : Platform) (sig : Z) : Prop :=
  plat = Win32 →
  sig ∈ [signal.SIGTERM; signal.CTRL_C_EVENT; signal.CTRL_BREAK_EVENT].

(** No record file of the registry holds text that is not JSON. *)
Definition all_records_decode (w : World) : Prop :=
  ∀ name text, record w name ≠ Some (NotJson text).

(** What enumeration yields for a name: the pair, when the record loads. *)
Definition loaded (w : World) (name : string) : option (string * ProcessInfo) :=
  match record w name with
  | Some (JsonRecord info) => Some (name, info)
  | _ => None
  end.

(** The record of [name] rewritten with [returncode = -1]. *)
Definition self_healed (info : ProcessInfo) (e : EntryDir) : EntryDir :=
  {| record_file := Some (JsonRecord (set_returncode (Some (-1)) info));
     aux_files := aux_files e |}.

(** How one entry directory may differ before and after an operation. *)
Inductive entry_step : option EntryDir → option EntryDir → Prop :=
  | step_same e : entry_step e e
  | step_deleted e : entry_step (Some e) None
  | step_healed e info :
      record_file e = Some (JsonRecord info) →
      returncode info = None →
      entry_step (Some e) (Some (self_healed info e)).

(** The world after [os.kill(p, sig)] was called. *)
Definition signalled (p sig : Z) (w : World) : World :=
  {| root := root w; procs := procs w; kill_log := (p, sig) :: kill_log w |}.

(** The world after the record of [name] was then rewritten as well. *)
Definition healed (name : string) (info : ProcessInfo) (p sig : Z) (w : World)
  : World :=
  {| root := alter (self_healed info) name <$> root w;
     procs := procs w;
     kill_log := (p, sig) :: kill_log w |}.

(** The world after the directory of [name] was removed. *)
Definition deleted (name : string) (w : World) : World :=
  set_root (delete name <$> root w) w.

(** The signal [kill] sends. *)
Definition kill_signal (plat : Platform) : Z :=
  match plat with
  | Win32 => signal.SIGTERM
  | Posix => signal.SIGKILL
  end.

(** The removal policy as the specification words it: whenever the entry
    exists and is terminated, or the removal is forced, the entry is gone
    afterwards, whatever became of the kill. *)
Definition remove_deletes_unconditionally
    (plat : Platform) (w : World) (name : string) (force : bool) : Prop :=
  (∃ info, record w name = Some (JsonRecord info) ∧
           (returncode info ≠ None ∨ force = true)) →
  entry (remove plat name force w).2 name = None.

(** Enumeration as the specification words it: it never stops with an
    exception, and yields every entry whose record loads. *)
Definition enumeration_skips_unloadable (w : World) : Prop :=
  (processes w).2 = Return tt ∧
  ∀ name info, record w name = Some (JsonRecord info) →
               (name, info) ∈ (processes w).1.

(** What an operation may do to the store: every entry directory is kept
    as it is, removed, or has its live record rewritten with the exit
    code -1; the process table is not touched. *)
Definition evolves (w w' : World) : Prop :=
  procs w' = procs w ∧ ∀ name, entry_step (entry w name) (entry w' name).

(** What an unforced removal may do: remove terminated entries, and
    nothing else; in particular no OS call. *)
Definition pruned (w w' : World) : Prop :=
  procs w' = procs w ∧ kill_log w' = kill_log w ∧
  ∀ name, entry w' name = entry w name ∨
          (entry w' name = None ∧ terminated w name).

(** A check of [all_records_decode] that runs. *)
Definition records_decode (w : World) : bool :=
  forallb (λ name, match record w name with
                   | Some (NotJson _) => false
                   | _ => true
                   end) (__iter__ w).

(** ** Sample worlds *)

Definition sample_info (p : Z) (rc : option Z) (dir : string) : ProcessInfo :=
  {| pid := p; stdin := None; stdout := Some "stdout"; stderr := Some "stderr";
     returncode := rc; wdir := dir |}.

Definition sample_dir (c : option FileContent) : EntryDir :=
  {| record_file := c; aux_files := ["stdout"; "stderr"] |}.

(** "abc" is live on record but its process is gone, "run1" has exited,
    "run2" runs, "locked" runs under another owner, "empty" has lost its
    record file. *)
Definition sample_world : World :=
  {| root := Some (list_to_map
       [("abc", sample_dir (Some (JsonRecord (sample_info 999999 None "abc"))));
        ("run1", sample_dir (Some (JsonRecord (sample_info 4100 (Some 0) "run1"))));
        ("run2", sample_dir (Some (JsonRecord (sample_info 4242 None "run2"))));
        ("locked", sample_dir (Some (JsonRecord (sample_info 1 None "locked"))));
        ("empty", sample_dir None)]);
     procs := list_to_map [(4242, Ours); (1, Foreign)];
     kill_log := [] |}.

(** A registry in which the record of "a" was left half written. *)
Definition torn_world : World :=
  {| root := Some (list_to_map
       [("a", sample_dir (Some (NotJson "{")));
        ("b", sample_dir (Some (JsonRecord (sample_info 4100 (Some 1) "b"))))]);
     procs := ∅;
     kill_log := [] |}.

(** A registry in which every process is gone or ours. *)
Definition own_world : World :=
  {| root := Some (list_to_map
       [("abc", sample_dir (Some (JsonRecord (sample_info 999999 None "abc"))));
        ("run1", sample_dir (Some (JsonRecord (sample_info 4100 (Some 0) "run1"))));
        ("run2", sample_dir (Some (JsonRecord (sample_info 4242 None "run2"))));
        ("empty", sample_dir None)]);
     procs := list_to_map [(4242, Ours)];
     kill_log := [] |}.

(** The calls of [os.kill] made between two worlds all went to pids that
    a record without exit code named in the first. *)
Definition signals_live_only (w w' : World) : Prop :=
  ∃ calls, kill_log w' = calls ++ kill_log w ∧
    ∀ p sig, (p, sig) ∈ calls →
      ∃ name info, record w name = Some (JsonRecord info) ∧
                   returncode info = None ∧ pid info = p.

(** The operations that address one entry. *)
Definition op_target (op : Op) : option string :=
  match op with
  | SendSignal name _ | Terminate name | Kill name | Remove name _ => Some name
  | Cleanup _ => None
  end.

(** The ways [remove] can go: the record is missing, torn, live without
    force, terminated, live and forced with a process that is gone or
    ours, live and forced with a process of another owner. *)
Inductive remove_case (plat : Platform) (name : string) (force : bool)
    (w : World) : Outcome unit * World → Prop :=
  | remove_case_missing :
      record w name = None →
      remove_case plat name force w (Return tt, w)
  | remove_case_torn text :
      record w name = Some (NotJson text) →
      remove_case plat name force w (Raise JSONDecodeError, w)
  | remove_case_refused info :
      record w name = Some (JsonRecord info) →
      returncode info = None → force = false →
      remove_case plat name force w (Raise (ProcessNotTerminatedError name), w)
  | remove_case_terminated info c :
      record w name = Some (JsonRecord info) →
      returncode info = Some c →
      remove_case plat name force w (Return tt, deleted name w)
  | remove_case_killed info :
      record w name = Some (JsonRecord info) →
      returncode info = None → force = true →
      procs w !! pid info ≠ Some Foreign →
      remove_case plat name force w
        (Return tt, deleted name (signalled (pid info) (kill_signal plat) w))
  | remove_case_denied info err winerror :
      record w name = Some (JsonRecord info) →
      returncode info = None → force = true →
      procs w !! pid info = Some Foreign →
      remove_case plat name force w
        (Raise (OSError err winerror), signalled (pid info) (kill_signal plat) w).

(** What every operation respects: entries evolve as [evolves] says, the
    OS is called for live records only, and a directory whose record does
    not load is not touched. *)
Definition safe (w w' : World) : Prop :=
  evolves w w' ∧ signals_live_only w w' ∧
  ∀ name, entry w' name = entry w name ∨
          ∃ info, record w name = Some (JsonRecord info).

(** ** Basic facts about the store *)

Ltac py_unfold :=
  unfold run, terminate, kill, send_signal, get, handle_closed_process,
    __getitem__, __setitem__, __delitem__, remove_path, try_except,
    mbind, M_bind, bind, mret, M_ret, ret, raise, os_kill.

Lemma record_entry w name c :
  record w name = Some c →
  ∃ e, entry w name = Some e ∧ record_file e = Some c.
Proof.
  unfold record. destruct (entry w name) as [e|]; simpl; [eauto | done].
Qed.

Lemma entry_root w name e :
  entry w name = Some e → ∃ d, root w = Some d ∧ d !! name = Some e.
Proof.
  unfold entry. destruct (root w) as [d|]; simpl; [eauto | done].
Qed.

Lemma entry_set_root r w name :
  entry (set_root r w) name = r ≫= (λ d, d !! name).
Proof. reflexivity. Qed.

Lemma not_in_win32_signals_false sig :
  not_in_win32_signals sig = false ↔
  sig ∈ [signal.SIGTERM; signal.CTRL_C_EVENT; signal.CTRL_BREAK_EVENT].
Proof.
  unfold not_in_win32_signals. rewrite negb_false_iff. simpl.
  rewrite !orb_true_iff, !Z.eqb_eq, !elem_of_cons, elem_of_nil.
  intuition congruence.
Qed.

Lemma not_in_win32_signals_true sig :
  not_in_win32_signals sig = true ↔
  sig ∉ [signal.SIGTERM; signal.CTRL_C_EVENT; signal.CTRL_BREAK_EVENT].
Proof.
  rewrite <- not_in_win32_signals_false. destruct (not_in_win32_signals sig);
    split; congruence.
Qed.

Lemma supported_check plat sig :
  supported plat sig →
  match plat with
  | Win32 => not_in_win32_signals sig = false
  | Posix => True
  end.
Proof.
  intros Hs. destruct plat; [done|].
  apply not_in_win32_signals_false. by apply Hs.
Qed.

(** ** [send_signal] case by case *)

Lemma send_signal_missing plat w name sig :
  record w name = None →
  send_signal plat name sig w = (Raise KeyError, w).
Proof. intros Hr. py_unfold. by rewrite Hr. Qed.

Lemma send_signal_unsupported w name sig info :
  record w name = Some (JsonRecord info) →
  not_in_win32_signals sig = true →
  send_signal Win32 name sig w = (Raise (UnsupportedSignalError sig), w).
Proof. intros Hr Hs. py_unfold. by rewrite Hr, Hs. Qed.

Lemma send_signal_terminated plat w name sig info c :
  record w name = Some (JsonRecord info) →
  returncode info = Some c →
  supported plat sig →
  send_signal plat name sig w = (Return tt, w).
Proof.
  intros Hr Hc Hs%supported_check. py_unfold. rewrite Hr.
  destruct plat; [|rewrite Hs]; by rewrite Hc.
Qed.

Lemma send_signal_live plat w name sig info :
  record w name = Some (JsonRecord info) →
  returncode info = None →
  supported plat sig →
  send_signal plat name sig w =
    match procs w !! pid info with
    | None => (Raise ProcessLookupError, healed name info (pid info) sig w)
    | Some Foreign =>
        (Raise (match plat with
                | Posix => OSError errno.EPERM None
                | Win32 => OSError errno.EACCES (Some 5)
                end), signalled (pid info) sig w)
    | Some Ours => (Return tt, signalled (pid info) sig w)
    end.
Proof.
  intros Hr Hc Hs%supported_check.
  destruct (record_entry _ _ _ Hr) as (e & He & Hf).
  destruct (entry_root _ _ _ He) as (d & Hd & Hl).
  py_unfold. rewrite Hr.
  unfold healed, signalled.
  destruct plat; rewrite ?Hs, Hc; simpl;
    destruct (procs w !! pid info) as [[]|]; simpl; try reflexivity;
    rewrite Hd, Hl; simpl; unfold set_root; simpl; do 3 f_equal;
    apply map_eq; intros k; rewrite lookup_alter, lookup_insert;
    case_decide; subst; by rewrite ?Hl.
Qed.

(** ** [remove] case by case *)

Lemma entry_deleted name w other :
  entry (deleted name w) other =
    if decide (name = other) then None else entry w other.
Proof.
  unfold deleted, entry, set_root; simpl.
  destruct (root w) as [d|]; simpl; [apply lookup_delete | by case_decide].
Qed.

Lemma delitem_eq name w : __delitem__ name w = (Return tt, deleted name w).
Proof.
  unfold __delitem__, remove_path.
  destruct (entry w name) eqn:He; [done|].
  f_equal. destruct w as [[d|] ps l]; unfold deleted, set_root; simpl; [|done].
  unfold entry in He; simpl in He. by rewrite delete_id.
Qed.

Lemma remove_missing plat w name force :
  record w name = None → remove plat name force w = (Return tt, w).
Proof. intros Hr. unfold remove, __getitem__. by rewrite Hr. Qed.

Lemma remove_torn plat w name force text :
  record w name = Some (NotJson text) →
  remove plat name force w = (Raise JSONDecodeError, w).
Proof. intros Hr. unfold remove, __getitem__. by rewrite Hr. Qed.

Lemma remove_live_noforce plat w name info :
  record w name = Some (JsonRecord info) →
  returncode info = None →
  remove plat name false w = (Raise (ProcessNotTerminatedError name), w).
Proof. intros Hr Hc. unfold remove, __getitem__. by rewrite Hr, Hc. Qed.

Lemma remove_proceeds plat w name force info :
  record w name = Some (JsonRecord info) →
  returncode info ≠ None ∨ force = true →
  remove plat name force w =
    match kill plat name w with
    | (Return _, w1) | (Raise ProcessLookupError, w1) =>
        (Return tt, deleted name w1)
    | (Raise e, w1) => (Raise e, w1)
    end.
Proof.
  intros Hr Hgo. unfold remove, __getitem__. rewrite Hr.
  assert (bool_decide (returncode info = None) && negb force = false) as ->.
  { destruct Hgo as [Hc| ->]; [|by rewrite andb_false_r].
    by rewrite bool_decide_eq_false_2. }
  unfold try_except, mbind, M_bind, bind, ret, raise.
  destruct (kill plat name w) as [[[]|[]] w1]; by rewrite ?delitem_eq.
Qed.

Lemma supported_kill_signal plat : supported plat (kill_signal plat).
Proof. intros ->. simpl. set_solver. Qed.

Lemma kill_eq plat name : kill plat name = send_signal plat name (kill_signal plat).
Proof. by destruct plat. Qed.

Lemma remove_terminated plat w name force info c :
  record w name = Some (JsonRecord info) →
  returncode info = Some c →
  remove plat name force w = (Return tt, deleted name w).
Proof.
  intros Hr Hc. rewrite (remove_proceeds _ _ _ _ info), kill_eq; [|done|].
  - by rewrite (send_signal_terminated _ _ _ _ info c);
      [| | |apply supported_kill_signal].
  - left. by rewrite Hc.
Qed.

(** ** What the operations leave in place *)

Lemma entry_signalled p sig w name : entry (signalled p sig w) name = entry w name.
Proof. reflexivity. Qed.

Lemma entry_healed name info p sig w other :
  entry (healed name info p sig w) other =
    if decide (name = other) then self_healed info <$> entry w other
    else entry w other.
Proof.
  unfold healed, entry; simpl. destruct (root w) as [d|]; simpl.
  - rewrite lookup_alter. by case_decide; subst.
  - by case_decide.
Qed.

Lemma record_of_entry w w' name :
  entry w' name = entry w name → record w' name = record w name.
Proof. unfold record. by intros ->. Qed.

Lemma terminated_of_entry w w' name :
  entry w' name = entry w name → terminated w' name → terminated w name.
Proof.
  intros He (info & c & Hr & Hc). exists info, c.
  by rewrite <- (record_of_entry _ _ _ He).
Qed.

Lemma live_not_terminated w name :
  unknown_live w name → ¬ terminated w name.
Proof. intros (info & Hr & Hc) (info' & c & Hr' & Hc'). congruence. Qed.

Lemma entry_step_trans e1 e2 e3 :
  entry_step e1 e2 → entry_step e2 e3 → entry_step e1 e3.
Proof.
  intros H12 H23. destruct H12 as [e|e|e info Hf Hc]; [done| |].
  - inversion H23; subst. constructor.
  - inversion H23 as [|e'|e' info' Hf' Hc']; subst.
    + by constructor.
    + constructor.
    + simpl in Hf'. injection Hf' as <-. discriminate Hc'.
Qed.

Lemma evolves_refl w : evolves w w.
Proof. split; [done|]. intros name. constructor. Qed.

Lemma evolves_trans w1 w2 w3 : evolves w1 w2 → evolves w2 w3 → evolves w1 w3.
Proof.
  intros [Hp H12] [Hp' H23]. split; [congruence|].
  intros name. eapply entry_step_trans; eauto.
Qed.

Lemma pruned_refl w : pruned w w.
Proof. repeat split. intros name. by left. Qed.

Lemma pruned_trans w1 w2 w3 : pruned w1 w2 → pruned w2 w3 → pruned w1 w3.
Proof.
  intros (Hp & Hl & H12) (Hp' & Hl' & H23).
  split; [congruence|]. split; [congruence|]. intros name.
  destruct (H23 name) as [He|[He Ht]], (H12 name) as [He'|[He' Ht']].
  - left. congruence.
  - right. split; [congruence|done].
  - right. split; [done|]. by eapply terminated_of_entry.
  - right. done.
Qed.

Lemma pruned_evolves w w' : pruned w w' → evolves w w'.
Proof.
  intros (Hp & _ & Hn). split; [done|]. intros name.
  destruct (Hn name) as [->|[-> (info & c & Hr & _)]]; [constructor|].
  destruct (record_entry _ _ _ Hr) as (e & -> & _). constructor.
Qed.

Lemma evolves_signalled p sig w : evolves w (signalled p sig w).
Proof. split; [done|]. intros name. constructor. Qed.

Lemma evolves_deleted name w : evolves w (deleted name w).
Proof.
  split; [done|]. intros other. rewrite entry_deleted.
  case_decide; [|constructor].
  destruct (entry w other); constructor.
Qed.

Lemma evolves_healed name info p sig w :
  record w name = Some (JsonRecord info) →
  returncode info = None →
  evolves w (healed name info p sig w).
Proof.
  intros Hr Hc. split; [done|]. intros other. rewrite entry_healed.
  case_decide as Heq; [subst other|constructor].
  destruct (record_entry _ _ _ Hr) as (e & -> & Hf). simpl. by constructor.
Qed.

Lemma supported_or_not plat sig :
  supported plat sig ∨ (plat = Win32 ∧ not_in_win32_signals sig = true).
Proof.
  destruct plat; [left; by intros ?|].
  destruct (not_in_win32_signals sig) eqn:Hs; [by right|left].
  intros _. by apply not_in_win32_signals_false.
Qed.

(** The world [send_signal] leaves, whatever its outcome. *)
Lemma send_signal_world plat name sig w :
  (send_signal plat name sig w).2 = w ∨
  ∃ info, record w name = Some (JsonRecord info) ∧ returncode info = None ∧
    ((send_signal plat name sig w).2 = signalled (pid info) sig w ∨
     (send_signal plat name sig w).2 = healed name info (pid info) sig w).
Proof.
  destruct (record w name) as [[info|text]|] eqn:Hr.
  - destruct (supported_or_not plat sig) as [Hs|[-> Hs]].
    + destruct (returncode info) as [c|] eqn:Hc.
      * left. by rewrite (send_signal_terminated _ _ _ _ info c).
      * right. exists info. split; [done|]. split; [done|].
        rewrite (send_signal_live _ _ _ _ info) by done.
        destruct (procs w !! pid info) as [[]|]; simpl; auto.
    + left. by rewrite (send_signal_unsupported _ _ _ info).
  - left. py_unfold. by rewrite Hr.
  - left. by rewrite send_signal_missing.
Qed.

Lemma send_signal_evolves plat name sig w :
  evolves w (send_signal plat name sig w).2.
Proof.
  destruct (send_signal_world plat name sig w)
    as [->|(info & Hr & Hc & [->| ->])].
  - apply evolves_refl.
  - apply evolves_signalled.
  - by apply evolves_healed.
Qed.

Lemma remove_evolves plat name force w :
  evolves w (remove plat name force w).2.
Proof.
  destruct (record w name) as [[info|text]|] eqn:Hr.
  - destruct (decide (returncode info = None ∧ force = false)) as [[Hc ->]|Hgo].
    + rewrite (remove_live_noforce _ _ _ info) by done. apply evolves_refl.
    + rewrite (remove_proceeds _ _ _ _ info); [|done|].
      * pose proof (send_signal_evolves plat name (kill_signal plat) w) as Hk.
        rewrite <- kill_eq in Hk.
        destruct (kill plat name w) as [[[]|[]] w1]; simpl in *; try done;
          (eapply evolves_trans; [exact Hk|apply evolves_deleted]).
      * destruct force; [by right|left]. intros Hc. by apply Hgo.
  - rewrite (remove_torn _ _ _ _ text) by done. apply evolves_refl.
  - rewrite remove_missing by done. apply evolves_refl.
Qed.

Lemma remove_noforce_pruned plat name w :
  pruned w (remove plat name false w).2.
Proof.
  destruct (record w name) as [[info|text]|] eqn:Hr.
  - destruct (returncode info) as [c|] eqn:Hc.
    + rewrite (remove_terminated _ _ _ _ info c) by done. simpl.
      repeat split. intros other. rewrite entry_deleted.
      case_decide; [subst other; right|by left].
      split; [done|]. by exists info, c.
    + rewrite (remove_live_noforce _ _ _ info) by done. apply pruned_refl.
  - rewrite (remove_torn _ _ _ _ text) by done. apply pruned_refl.
  - rewrite remove_missing by done. apply pruned_refl.
Qed.

(** One round of the loop of [cleanup]. *)
Lemma cleanup_from_cons plat force name rest w :
  cleanup_from plat force (name :: rest) w =
    match remove plat name force w with
    | (Return _, w1) | (Raise (ProcessNotTerminatedError _), w1) =>
        cleanup_from plat force rest w1
    | (Raise e, w1) => (Raise e, w1)
    end.
Proof.
  simpl. unfold try_except, mbind, M_bind, bind, ret, raise.
  by destruct (remove plat name force w) as [[[]|[]] w1].
Qed.

Lemma cleanup_from_evolves plat force names w :
  evolves w (cleanup_from plat force names w).2.
Proof.
  revert w. induction names as [|name rest IH]; intros w.
  - apply evolves_refl.
  - rewrite cleanup_from_cons.
    pose proof (remove_evolves plat name force w) as Hr.
    destruct (remove plat name force w) as [[[]|[]] w1]; simpl in *; try done;
      (eapply evolves_trans; [exact Hr|apply IH]).
Qed.

Lemma cleanup_from_noforce_pruned plat names w :
  pruned w (cleanup_from plat false names w).2.
Proof.
  revert w. induction names as [|name rest IH]; intros w.
  - apply pruned_refl.
  - rewrite cleanup_from_cons.
    pose proof (remove_noforce_pruned plat name w) as Hr.
    destruct (remove plat name false w) as [[[]|[]] w1]; simpl in *; try done;
      (eapply pruned_trans; [exact Hr|apply IH]).
Qed.

(** ** Enumeration *)

Lemma elem_of_iter w name : name ∈ __iter__ w ↔ is_Some (entry w name).
Proof.
  unfold __iter__, entry. destruct (root w) as [d|]; simpl.
  - rewrite list_elem_of_fmap. split.
    + intros ([k e] & -> & Hin). apply elem_of_map_to_list in Hin. by exists e.
    + intros [e He]. exists (name, e). split; [done|].
      by apply elem_of_map_to_list.
  - rewrite elem_of_nil. split; [done|]. by intros [? ?].
Qed.

Lemma records_decode_spec w : records_decode w = true → all_records_decode w.
Proof.
  unfold records_decode. rewrite forallb_forall. intros Hall name text Hr.
  destruct (record_entry _ _ _ Hr) as (e & He & _).
  assert (name ∈ __iter__ w) as Hin by (apply elem_of_iter; eauto).
  apply list_elem_of_In, Hall in Hin. by rewrite Hr in Hin.
Qed.

Lemma processes_from_decoding names w :
  (∀ name, name ∈ names → ∀ text, record w name ≠ Some (NotJson text)) →
  processes_from names w = (omap (loaded w) names, Return tt).
Proof.
  induction names as [|name rest IH]; intros Hok; [done|].
  assert (processes_from rest w = (omap (loaded w) rest, Return ())) as Hrest.
  { apply IH. intros n Hn. apply Hok. by right. }
  simpl. unfold loaded at 1, __getitem__.
  destruct (record w name) as [[info|text]|] eqn:Hr.
  - by rewrite Hrest.
  - exfalso. eapply Hok; [left|exact Hr].
  - done.
Qed.

Lemma processes_from_torn pre bad rest text w :
  (∀ name, name ∈ pre → ∀ t, record w name ≠ Some (NotJson t)) →
  record w bad = Some (NotJson text) →
  processes_from (pre ++ bad :: rest) w =
    (omap (loaded w) pre, Raise JSONDecodeError).
Proof.
  intros Hok Hbad. induction pre as [|name pre IH]; simpl.
  - unfold __getitem__. by rewrite Hbad.
  - assert (processes_from (pre ++ bad :: rest) w
            = (omap (loaded w) pre, Raise JSONDecodeError)) as Hrest.
    { apply IH. intros n Hn. apply Hok. by right. }
    unfold loaded at 1, __getitem__.
    destruct (record w name) as [[info|t]|] eqn:Hr.
    + by rewrite Hrest.
    + exfalso. eapply Hok; [left|exact Hr].
    + done.
Qed.

(** ** [cleanup] without force *)

Lemma all_records_decode_pruned w w' :
  pruned w w' → all_records_decode w → all_records_decode w'.
Proof.
  intros (_ & _ & Hn) Hok name text Hr.
  destruct (Hn name) as [He|[He _]].
  - apply (Hok name text). by rewrite <- (record_of_entry _ _ _ He).
  - unfold record in Hr. by rewrite He in Hr.
Qed.

Lemma cleanup_from_noforce_complete plat names w :
  all_records_decode w →
  (cleanup_from plat false names w).1 = Return tt ∧
  ∀ name, name ∈ names → terminated w name →
          entry (cleanup_from plat false names w).2 name = None.
Proof.
  revert w. induction names as [|name rest IH]; intros w Hok.
  { split; [done|]. intros name Hin. by apply elem_of_nil in Hin. }
  rewrite cleanup_from_cons.
  pose proof (remove_noforce_pruned plat name w) as Hp.
  assert (∀ w1, pruned w w1 →
            (entry w1 name = None ∨ ¬ terminated w name) →
            (cleanup_from plat false rest w1).1 = Return () ∧
            ∀ n, n ∈ name :: rest → terminated w n →
                 entry (cleanup_from plat false rest w1).2 n = None) as Hgo.
  { intros w1 Hw1 Hname.
    destruct (IH w1 (all_records_decode_pruned _ _ Hw1 Hok)) as [Hret Hrest].
    split; [done|]. intros n Hin Ht.
    pose proof (cleanup_from_noforce_pruned plat rest w1) as (_ & _ & Hn).
    destruct Hw1 as (_ & _ & Hn1).
    assert (entry w1 n = None ∨ (n ∈ rest ∧ entry w1 n = entry w n)) as Hcase.
    { apply elem_of_cons in Hin as [->|Hin].
      - destruct Hname as [?|Hnt]; [by left|done].
      - destruct (Hn1 n) as [?|[? _]]; [by right|by left]. }
    destruct Hcase as [He|[Hin' He]].
    - destruct (Hn n) as [->|[? _]]; done.
    - apply Hrest; [done|].
      destruct Ht as (info & c & Hr & Hc). exists info, c.
      by rewrite (record_of_entry _ _ _ He). }
  destruct (record w name) as [[info|text]|] eqn:Hr.
  - destruct (returncode info) as [c|] eqn:Hc.
    + rewrite (remove_terminated _ _ _ _ info c) in * by done.
      apply Hgo; [done|]. left. rewrite entry_deleted. by case_decide.
    + rewrite (remove_live_noforce _ _ _ info) in * by done.
      apply Hgo; [done|]. right. apply live_not_terminated. by exists info.
  - by destruct (Hok name text).
  - rewrite remove_missing in * by done.
    apply Hgo; [done|]. right. intros (info & c & Hr' & _). congruence.
Qed.

(** * The claims *)

(** C1. A record without exit code whose pid names no process: a
    supported [send_signal] calls the OS, which reports "no such process"
    on POSIX and winerror 87 on Windows; either way the record is
    rewritten with [returncode = -1], nothing else in the store changes,
    and [ProcessLookupError] reaches the caller. *)
Theorem send_signal_gone_self_heals plat w name sig info :
  record w name = Some (JsonRecord info) →
  returncode info = None →
  procs w !! pid info = None →
  supported plat sig →
  (os_kill plat (pid info) sig w).1 =
    Raise (match plat with
           | Posix => ProcessLookupError
           | Win32 => OSError errno.EINVAL (Some 87)
           end) ∧
  ∃ w', send_signal plat name sig w = (Raise ProcessLookupError, w') ∧
    record w' name = Some (JsonRecord (set_returncode (Some (-1)) info)) ∧
    (∀ other, other ≠ name → entry w' other = entry w other) ∧
    kill_log w' = (pid info, sig) :: kill_log w ∧
    procs w' = procs w.
Proof.
  intros Hr Hc Hp Hs. split.
  { unfold os_kill. rewrite Hp. by destruct plat. }
  exists (healed name info (pid info) sig w).
  rewrite (send_signal_live _ _ _ _ info), Hp by done.
  split; [done|]. split; [|split; [|done]].
  - destruct (record_entry _ _ _ Hr) as (e & He & _).
    unfold record. rewrite entry_healed, He. by case_decide.
  - intros other Hne. rewrite entry_healed. by case_decide.
Qed.

Lemma send_signal_gone_self_heals_witness :
  ∃ w', send_signal Win32 "abc" signal.SIGTERM sample_world
          = (Raise ProcessLookupError, w') ∧
        record w' "abc"
          = Some (JsonRecord (sample_info 999999 (Some (-1)) "abc")).
Proof.
  destruct (send_signal_gone_self_heals Win32 sample_world "abc"
              signal.SIGTERM (sample_info 999999 None "abc"))
    as (_ & w' & Hrun & Hrec & _).
  - reflexivity.
  - reflexivity.
  - reflexivity.
  - intros _. vm_compute. left.
  - exists w'. split; [exact Hrun | exact Hrec].
Defined.

(** C2. An entry whose record has no exit code is never lost without
    force: [remove] raises [ProcessNotTerminatedError] and returns the
    world it was given, and [cleanup] leaves the entry directory as it
    was and calls the OS not at all, however it ends. *)
Theorem remove_noforce_keeps_live plat w name info :
  record w name = Some (JsonRecord info) →
  returncode info = None →
  remove plat name false w = (Raise (ProcessNotTerminatedError name), w) ∧
  entry (cleanup plat false w).2 name = entry w name ∧
  kill_log (cleanup plat false w).2 = kill_log w ∧
  procs (cleanup plat false w).2 = procs w.
Proof.
  intros Hr Hc. split; [by apply (remove_live_noforce _ _ _ info)|].
  destruct (cleanup_from_noforce_pruned plat (__iter__ w) w) as (Hp & Hl & Hn).
  unfold cleanup. repeat split; [|done..].
  destruct (Hn name) as [?|[_ Ht]]; [done|].
  destruct (live_not_terminated w name); [by exists info|done].
Qed.

Lemma remove_noforce_keeps_live_witness :
  remove Posix "run2" false sample_world
    = (Raise (ProcessNotTerminatedError "run2"), sample_world) ∧
  entry (cleanup Posix false sample_world).2 "run2" = entry sample_world "run2".
Proof.
  destruct (remove_noforce_keeps_live Posix sample_world "run2"
              (sample_info 4242 None "run2")) as (Hrm & Hcl & _).
  - reflexivity.
  - reflexivity.
  - split; [exact Hrm | exact Hcl].
Defined.



(** C4, as stated, fails: a forced removal of a live entry whose process
    belongs to another owner gets a permission error from the OS, which
    [remove] does not catch, and the entry directory stays. *)
Lemma remove_force_not_unconditional :
  ¬ remove_deletes_unconditionally Posix sample_world "locked" true.
Proof.
  intros Hclaim.
  assert (entry (remove Posix "locked" true sample_world).2 "locked" = None)
    as Hgone.
  { apply Hclaim. exists (sample_info 1 None "locked").
    split; [reflexivity | by right]. }
  vm_compute in Hgone. discriminate Hgone.
Qed.

(** C4, amended.  For an entry that is terminated, or with force, [remove]
    first runs [kill].  On a terminated entry the kill is a no-op and the
    entry directory is removed.  In general the directory is removed when
    the kill returns or raises [ProcessLookupError]; any other exception
    of the kill is passed on and the directory is left in place. *)
Theorem remove_kill_then_delete plat w name force info :
  record w name = Some (JsonRecord info) →
  returncode info ≠ None ∨ force = true →
  (returncode info ≠ None →
     kill plat name w = (Return tt, w) ∧
     remove plat name force w = (Return tt, deleted name w)) ∧
  ((kill plat name w).1 = Return tt ∨
   (kill plat name w).1 = Raise ProcessLookupError →
     remove plat name force w = (Return tt, deleted name (kill plat name w).2) ∧
     entry (remove plat name force w).2 name = None) ∧
  (∀ e, (kill plat name w).1 = Raise e → e ≠ ProcessLookupError →
     remove plat name force w = (Raise e, (kill plat name w).2)).
Proof.
  intros Hr Hgo. split; [|split].
  - intros Hc. destruct (returncode info) as [c|] eqn:Hc'; [|done].
    split; [|by apply (remove_terminated _ _ _ _ info c)].
    rewrite kill_eq.
    by apply (send_signal_terminated _ _ _ _ info c), supported_kill_signal.
  - intros Hk. rewrite (remove_proceeds _ _ _ _ info) by done.
    destruct (kill plat name w) as [[[]|e] w1]; simpl in *.
    + split; [done|]. simpl. rewrite entry_deleted. by case_decide.
    + destruct Hk as [?|[= ->]]; [done|].
      split; [done|]. simpl. rewrite entry_deleted. by case_decide.
  - intros e Hk Hne. rewrite (remove_proceeds _ _ _ _ info) by done.
    destruct (kill plat name w) as [[[]|e'] w1]; simpl in *; [done|].
    injection Hk as ->. by destruct e.
Qed.

Lemma remove_kill_then_delete_witness :
  remove Posix "abc" true sample_world
    = (Return tt, deleted "abc" (kill Posix "abc" sample_world).2) ∧
  remove Posix "locked" true sample_world
    = (Raise (OSError errno.EPERM None), (kill Posix "locked" sample_world).2).
Proof.
  split.
  - apply (remove_kill_then_delete Posix sample_world "abc" true
             (sample_info 999999 None "abc")).
    + reflexivity.
    + right. reflexivity.
    + right. reflexivity.
  - apply (remove_kill_then_delete Posix sample_world "locked" true
             (sample_info 1 None "locked")).
    + reflexivity.
    + right. reflexivity.
    + reflexivity.
    + discriminate.
Defined.

(** C5. On an entry whose record has an exit code, a supported
    [send_signal] returns with the world it was given: no call of
    [os.kill] is logged and the store is the same. *)
Theorem send_signal_terminated_noop plat w name sig info c :
  record w name = Some (JsonRecord info) →
  returncode info = Some c →
  supported plat sig →
  send_signal plat name sig w = (Return tt, w).
Proof. apply send_signal_terminated. Qed.

Lemma send_signal_terminated_noop_witness :
  send_signal Posix "run1" signal.SIGKILL sample_world = (Return tt, sample_world).
Proof.
  apply (send_signal_terminated_noop Posix sample_world "run1" signal.SIGKILL
           (sample_info 4100 (Some 0) "run1") 0).
  - reflexivity.
  - reflexivity.
  - intros Hwin. discriminate Hwin.
Defined.

(** C6. On Windows, a signal other than SIGTERM, CTRL_C_EVENT and
    CTRL_BREAK_EVENT sent to an entry whose record loads, with or without
    exit code, raises [UnsupportedSignalError] and returns the world it
    was given. *)
Theorem send_signal_win32_unsupported w name sig info :
  record w name = Some (JsonRecord info) →
  sig ∉ [signal.SIGTERM; signal.CTRL_C_EVENT; signal.CTRL_BREAK_EVENT] →
  send_signal Win32 name sig w = (Raise (UnsupportedSignalError sig), w).
Proof.
  intros Hr Hs. apply (send_signal_unsupported _ _ _ info); [done|].
  by apply not_in_win32_signals_true.
Qed.

Lemma send_signal_win32_unsupported_witness :
  send_signal Win32 "run2" signal.SIGKILL sample_world
    = (Raise (UnsupportedSignalError signal.SIGKILL), sample_world) ∧
  send_signal Win32 "run1" signal.SIGKILL sample_world
    = (Raise (UnsupportedSignalError signal.SIGKILL), sample_world).
Proof.
  split.
  - apply (send_signal_win32_unsupported sample_world "run2" signal.SIGKILL
             (sample_info 4242 None "run2")).
    + reflexivity.
    + refine (bool_decide_unpack _ _). vm_compute. exact I.
  - apply (send_signal_win32_unsupported sample_world "run1" signal.SIGKILL
             (sample_info 4100 (Some 0) "run1")).
    + reflexivity.
    + refine (bool_decide_unpack _ _). vm_compute. exact I.
Defined.

(** C7. For a name without record file, whether its directory exists or
    not, [get] returns the default and [remove] returns without touching
    the world, with or without force. *)
Theorem absent_get_default_remove_noop
    {D : Type} plat w name (default : D) force :
  record w name = None →
  get name default w = (Return (inr default), w) ∧
  remove plat name force w = (Return tt, w).
Proof.
  intros Hr. split; [|by apply remove_missing].
  py_unfold. by rewrite Hr.
Qed.

Lemma absent_get_default_remove_noop_witness :
  get "ghost" 0%nat sample_world = (Return (inr 0%nat), sample_world) ∧
  remove Posix "ghost" true sample_world = (Return tt, sample_world).
Proof.
  apply (absent_get_default_remove_noop Posix sample_world "ghost" 0%nat true).
  reflexivity.
Defined.

(** C8, as stated, fails: a record file that is not JSON makes
    [__getitem__] raise a decoding error, which [processes] does not
    catch; the enumeration stops there, and the entry after it is never
    yielded. *)
Lemma enumeration_aborts_on_torn_record :
  ¬ enumeration_skips_unloadable torn_world.
Proof.
  intros [Hret _]. vm_compute in Hret. discriminate Hret.
Qed.

(** C8, amended.  Enumeration skips the names whose record file is
    missing.  When no record file holds malformed text it runs to the end
    and yields, in listing order, exactly the entries whose record loads.
    At the first name whose record file is malformed it stops with the
    decoding error, having yielded the loadable entries listed before. *)
Theorem processes_skips_missing w :
  (all_records_decode w →
     processes w = (omap (loaded w) (__iter__ w), Return tt)) ∧
  (∀ pre bad rest text,
     __iter__ w = pre ++ bad :: rest →
     (∀ name, name ∈ pre → ∀ t, record w name ≠ Some (NotJson t)) →
     record w bad = Some (NotJson text) →
     processes w = (omap (loaded w) pre, Raise JSONDecodeError)) ∧
  (∀ name, record w name = None → loaded w name = None).
Proof.
  unfold processes. split; [|split].
  - intros Hok. apply processes_from_decoding. intros name _. apply Hok.
  - intros pre bad rest text -> Hpre Hbad.
    by apply (processes_from_torn _ _ _ text).
  - intros name Hr. unfold loaded. by rewrite Hr.
Qed.

Lemma processes_skips_missing_witness :
  (processes sample_world).2 = Return tt ∧
  "empty" ∈ __iter__ sample_world ∧
  loaded sample_world "empty" = None ∧
  processes torn_world = ([], Raise JSONDecodeError).
Proof.
  destruct (processes_skips_missing sample_world) as (Hall & _ & Hskip).
  destruct (processes_skips_missing torn_world) as (_ & Htorn & _).
  split; [|split; [|split]].
  - rewrite Hall; [reflexivity|]. apply records_decode_spec. reflexivity.
  - vm_compute. left.
  - apply Hskip. reflexivity.
  - apply (Htorn [] "a" ["b"] "{").
    + reflexivity.
    + intros name Hin. inversion Hin.
    + reflexivity.
Defined.

(** C9. Whatever the operation and however it ends, an entry whose
    record has an exit code is afterwards either unchanged or removed
    with its directory (by [remove] and [cleanup]); and the only change
    ever made to a directory that stays is the rewrite of a record without
    exit code to the same record with [returncode = -1]. *)
Theorem returncode_preserved plat op w :
  (∀ name info c,
     record w name = Some (JsonRecord info) →
     returncode info = Some c →
     entry (run plat op w).2 name = entry w name ∨
     entry (run plat op w).2 name = None) ∧
  (∀ name, entry_step (entry w name) (entry (run plat op w).2 name)) ∧
  procs (run plat op w).2 = procs w.
Proof.
  assert (evolves w (run plat op w).2) as [Hp Hn].
  { destruct op as [name sig|name|name|name force|force]; simpl.
    - apply send_signal_evolves.
    - apply send_signal_evolves.
    - rewrite kill_eq. apply send_signal_evolves.
    - apply remove_evolves.
    - apply cleanup_from_evolves. }
  split; [|done]. intros name info c Hr Hc.
  destruct (record_entry _ _ _ Hr) as (e & He & Hf).
  specialize (Hn name). rewrite He in *.
  inversion Hn as [|e'|e' info' Hf' Hc']; subst; [by left|by right|].
  congruence.
Qed.

Lemma returncode_preserved_witness :
  entry (cleanup Posix true sample_world).2 "run1" = entry sample_world "run1" ∨
  entry (cleanup Posix true sample_world).2 "run1" = None.
Proof.
  apply (proj1 (returncode_preserved Posix (Cleanup true) sample_world)
           "run1" (sample_info 4100 (Some 0) "run1") 0).
  - reflexivity.
  - reflexivity.
Defined.

(** C10. For a name without record file, [send_signal] raises [KeyError]
    on either platform and for every signal, the ones Windows does not
    support among them, and returns the world it was given. *)
Theorem send_signal_missing_keyerror plat w name sig :
  record w name = None →
  send_signal plat name sig w = (Raise KeyError, w).
Proof. apply send_signal_missing. Qed.

Lemma send_signal_missing_keyerror_witness :
  send_signal Win32 "ghost" signal.SIGKILL sample_world
    = (Raise KeyError, sample_world) ∧
  not_in_win32_signals signal.SIGKILL = true.
Proof.
  split; [|reflexivity].
  apply (send_signal_missing_keyerror Win32 sample_world "ghost" signal.SIGKILL).
  reflexivity.
Defined.

(** * Further properties of the registry *)

(** ** The store: [__setitem__], [__getitem__], [__delitem__], [get] *)

Lemma record_deleted name w : record (deleted name w) name = None.
Proof. unfold record. rewrite entry_deleted. by case_decide. Qed.

Lemma iter_nodup w : NoDup (__iter__ w).
Proof.
  unfold __iter__. destruct (root w) as [d|]; [|constructor].
  apply NoDup_fst_map_to_list.
Qed.

Lemma setitem_present key value w e :
  entry w key = Some e →
  __setitem__ key value w =
    (Return tt,
     set_root ((λ d, <[key := {| record_file := Some (JsonRecord value);
                                 aux_files := aux_files e |}]> d) <$> root w) w).
Proof.
  intros He. destruct (entry_root _ _ _ He) as (d & Hd & Hl).
  unfold __setitem__. by rewrite Hd, Hl.
Qed.

Lemma setitem_absent key value w :
  entry w key = None → __setitem__ key value w = (Raise KeyError, w).
Proof.
  unfold entry, __setitem__. destruct (root w) as [d|]; simpl; [|done].
  by intros ->.
Qed.

(** X1. A record written with [__setitem__] is the record [__getitem__] reads
    back; the other files of the directory, the other entries, the process
    table and the log of OS calls are as before. *)
Theorem setitem_getitem_roundtrip key value w e :
  entry w key = Some e →
  ∃ w', __setitem__ key value w = (Return tt, w') ∧
    __getitem__ key w' = (Return value, w') ∧
    (aux_files <$> entry w' key) = Some (aux_files e) ∧
    (∀ other, other ≠ key → entry w' other = entry w other) ∧
    procs w' = procs w ∧ kill_log w' = kill_log w.
Proof.
  intros He. destruct (entry_root _ _ _ He) as (d & Hd & Hl).
  eexists. split; [by apply setitem_present|].
  unfold __getitem__, record, entry, set_root; simpl. rewrite Hd; simpl.
  rewrite lookup_insert_eq; simpl. repeat split.
  intros other Hne. by rewrite lookup_insert_ne.
Qed.

Lemma setitem_getitem_roundtrip_witness :
  ∃ w', __setitem__ "empty" (sample_info 7 None "empty") sample_world
          = (Return tt, w') ∧
        __getitem__ "empty" w' = (Return (sample_info 7 None "empty"), w').
Proof.
  destruct (setitem_getitem_roundtrip "empty" (sample_info 7 None "empty")
              sample_world (sample_dir None)) as (w' & Hset & Hget & _).
  - reflexivity.
  - exists w'. split; [exact Hset | exact Hget].
Defined.

(** X2. [__setitem__] never creates the directory of an entry: it succeeds
    exactly when the directory is there, and otherwise raises [KeyError]
    and leaves the world as it was. *)
Theorem setitem_needs_directory key value w :
  ((__setitem__ key value w).1 = Return tt ↔ is_Some (entry w key)) ∧
  (entry w key = None → __setitem__ key value w = (Raise KeyError, w)).
Proof.
  split; [|apply setitem_absent]. split.
  - destruct (entry w key) as [e|] eqn:He; [by eauto|].
    by rewrite setitem_absent.
  - intros [e He]. by rewrite (setitem_present _ _ _ e).
Qed.

Lemma setitem_needs_directory_witness :
  __setitem__ "ghost" (sample_info 7 None "ghost") sample_world
    = (Raise KeyError, sample_world).
Proof.
  apply (setitem_needs_directory "ghost" (sample_info 7 None "ghost")
           sample_world).
  reflexivity.
Defined.


(** X4. [get] hands out the record when it loads; the default stands in for a
    missing record only: a record file that is not JSON makes [get] raise
    the decoding error. *)
Theorem get_present_or_torn {D : Type} key (default : D) w :
  (∀ info, record w key = Some (JsonRecord info) →
     get key default w = (Return (inl info), w)) ∧
  (∀ text, record w key = Some (NotJson text) →
     get key default w = (Raise JSONDecodeError, w)).
Proof.
  split; intros x Hr; py_unfold; by rewrite Hr.
Qed.

Lemma get_present_or_torn_witness :
  get "run1" 0%nat sample_world
    = (Return (inl (sample_info 4100 (Some 0) "run1")), sample_world) ∧
  get "a" 0%nat torn_world = (Raise JSONDecodeError, torn_world).
Proof.
  split.
  - apply (proj1 (get_present_or_torn "run1" 0%nat sample_world)). reflexivity.
  - apply (proj2 (get_present_or_torn "a" 0%nat torn_world) "{"). reflexivity.
Defined.

(** X5. A missing root directory is an empty registry: nothing is listed or
    enumerated, [cleanup] returns at once, every lookup and every write is
    a [KeyError], and deletion is a no-op. *)
Theorem missing_root_is_empty_registry plat force key value w :
  root w = None →
  __iter__ w = [] ∧
  processes w = ([], Return tt) ∧
  cleanup plat force w = (Return tt, w) ∧
  __getitem__ key w = (Raise KeyError, w) ∧
  __setitem__ key value w = (Raise KeyError, w) ∧
  __delitem__ key w = (Return tt, w).
Proof.
  intros Hroot.
  unfold processes, cleanup, __iter__, __getitem__, __setitem__, __delitem__,
    record, entry.
  by rewrite Hroot.
Qed.

Lemma missing_root_is_empty_registry_witness :
  processes {| root := None; procs := ∅; kill_log := [] |} = ([], Return tt).
Proof.
  apply (missing_root_is_empty_registry Posix false "abc"
           (sample_info 7 None "abc")
           {| root := None; procs := ∅; kill_log := [] |}).
  reflexivity.
Defined.

(** ** Signals: [send_signal], [terminate], [kill] *)

Lemma record_signalled p sig w name : record (signalled p sig w) name = record w name.
Proof. reflexivity. Qed.

Lemma record_healed name info p sig w :
  record w name = Some (JsonRecord info) →
  record (healed name info p sig w) name
    = Some (JsonRecord (set_returncode (Some (-1)) info)).
Proof.
  intros Hr. destruct (record_entry _ _ _ Hr) as (e & He & _).
  unfold record. rewrite entry_healed, He. by case_decide.
Qed.

(** What [send_signal] may raise. *)
Lemma send_signal_outcome plat name sig w :
  match (send_signal plat name sig w).1 with
  | Return _ => True
  | Raise KeyError => record w name = None
  | Raise JSONDecodeError => ∃ text, record w name = Some (NotJson text)
  | Raise (UnsupportedSignalError s) =>
      s = sig ∧ plat = Win32 ∧ not_in_win32_signals sig = true
  | Raise (ProcessNotTerminatedError _) => False
  | Raise ProcessLookupError | Raise (OSError _ _) =>
      supported plat sig ∧ unknown_live w name
  end.
Proof.
  destruct (record w name) as [[info|text]|] eqn:Hr.
  - destruct (supported_or_not plat sig) as [Hs|[-> Hs]].
    + destruct (returncode info) as [c|] eqn:Hc.
      * by rewrite (send_signal_terminated _ _ _ _ info c).
      * rewrite (send_signal_live _ _ _ _ info) by done.
        assert (unknown_live w name) by (by exists info).
        destruct (procs w !! pid info) as [[]|]; simpl; [done| |done].
        by destruct plat.
    + by rewrite (send_signal_unsupported _ _ _ info).
  - py_unfold. rewrite Hr. simpl. eauto.
  - by rewrite send_signal_missing.
Qed.

(** X6. A supported signal to a process that exists and is ours is delivered:
    [send_signal] returns, exactly one call [os.kill(pid, sig)] is made,
    and the store is not written. *)
Theorem send_signal_delivers plat w name sig info :
  record w name = Some (JsonRecord info) →
  returncode info = None →
  procs w !! pid info = Some Ours →
  supported plat sig →
  send_signal plat name sig w = (Return tt, signalled (pid info) sig w) ∧
  root (signalled (pid info) sig w) = root w ∧
  kill_log (signalled (pid info) sig w) = (pid info, sig) :: kill_log w.
Proof.
  intros Hr Hc Hp Hs.
  by rewrite (send_signal_live _ _ _ _ info), Hp.
Qed.

Lemma send_signal_delivers_witness :
  send_signal Posix "run2" signal.SIGTERM sample_world
    = (Return tt, signalled 4242 signal.SIGTERM sample_world).
Proof.
  apply (send_signal_delivers Posix sample_world "run2" signal.SIGTERM
           (sample_info 4242 None "run2")).
  - reflexivity.
  - reflexivity.
  - reflexivity.
  - intros Hwin. discriminate Hwin.
Defined.

(** X7. An OS error other than "no such process" is passed on as it is and
    heals nothing: when the process belongs to someone else the permission
    error of [os.kill] reaches the caller and the record still has no exit
    code. *)
Theorem send_signal_permission_error_propagates plat w name sig info :
  record w name = Some (JsonRecord info) →
  returncode info = None →
  procs w !! pid info = Some Foreign →
  supported plat sig →
  send_signal plat name sig w = os_kill plat (pid info) sig w ∧
  (∃ err winerror,
     (send_signal plat name sig w).1 = Raise (OSError err winerror) ∧
     winerror ≠ Some 87) ∧
  record (send_signal plat name sig w).2 name = Some (JsonRecord info).
Proof.
  intros Hr Hc Hp Hs.
  rewrite (send_signal_live _ _ _ _ info), Hp by done.
  split; [|split].
  - unfold os_kill. rewrite Hp. by destruct plat.
  - destruct plat; simpl; eauto.
  - done.
Qed.

Lemma send_signal_permission_error_propagates_witness :
  send_signal Posix "locked" signal.SIGTERM sample_world
    = os_kill Posix 1 signal.SIGTERM sample_world.
Proof.
  apply (send_signal_permission_error_propagates Posix sample_world "locked"
           signal.SIGTERM (sample_info 1 None "locked")).
  - reflexivity.
  - reflexivity.
  - reflexivity.
  - intros Hwin. discriminate Hwin.
Defined.

(** X8. [terminate] and [kill] pick a signal the platform accepts: neither
    ever raises [UnsupportedSignalError], and neither raises
    [ProcessNotTerminatedError]. *)
Theorem terminate_kill_signal_supported plat name w :
  (∀ s, (terminate plat name w).1 ≠ Raise (UnsupportedSignalError s)) ∧
  (∀ s, (kill plat name w).1 ≠ Raise (UnsupportedSignalError s)) ∧
  (∀ n, (terminate plat name w).1 ≠ Raise (ProcessNotTerminatedError n)) ∧
  (∀ n, (kill plat name w).1 ≠ Raise (ProcessNotTerminatedError n)).
Proof.
  rewrite kill_eq. unfold terminate.
  pose proof (send_signal_outcome plat name signal.SIGTERM w) as Ht.
  pose proof (send_signal_outcome plat name (kill_signal plat) w) as Hk.
  repeat split; intros x Hx; rewrite Hx in *; try done.
  - by destruct Ht as (_ & _ & ?).
  - destruct Hk as (_ & -> & ?). done.
Qed.

(** X9. A vanished process is signalled once: the first [send_signal] heals
    the record and raises [ProcessLookupError]; from then on the entry is
    terminated, and a further supported signal returns without any call
    to the OS. *)
Theorem send_signal_twice_gone plat w name sig sig' info :
  record w name = Some (JsonRecord info) →
  returncode info = None →
  procs w !! pid info = None →
  supported plat sig →
  supported plat sig' →
  ∃ w1, send_signal plat name sig w = (Raise ProcessLookupError, w1) ∧
        terminated w1 name ∧
        send_signal plat name sig' w1 = (Return tt, w1).
Proof.
  intros Hr Hc Hp Hs Hs'.
  exists (healed name info (pid info) sig w).
  rewrite (send_signal_live _ _ _ _ info), Hp by done.
  pose proof (record_healed name info (pid info) sig w Hr) as Hr1.
  split; [done|]. split.
  - by exists (set_returncode (Some (-1)) info), (-1).
  - by apply (send_signal_terminated _ _ _ _
                (set_returncode (Some (-1)) info) (-1)).
Qed.

Lemma send_signal_twice_gone_witness :
  ∃ w1, send_signal Posix "abc" signal.SIGTERM sample_world
          = (Raise ProcessLookupError, w1) ∧
        send_signal Posix "abc" signal.SIGKILL w1 = (Return tt, w1).
Proof.
  destruct (send_signal_twice_gone Posix sample_world "abc" signal.SIGTERM
              signal.SIGKILL (sample_info 999999 None "abc"))
    as (w1 & H1 & _ & H2).
  - reflexivity.
  - reflexivity.
  - reflexivity.
  - intros Hwin. discriminate Hwin.
  - intros Hwin. discriminate Hwin.
  - exists w1. split; [exact H1 | exact H2].
Defined.

(** ** Removal: [remove] and [cleanup] *)

Lemma deleted_healed name info p sig w :
  deleted name (healed name info p sig w) = deleted name (signalled p sig w).
Proof.
  unfold deleted, healed, signalled, set_root; simpl. f_equal.
  destruct (root w) as [d|]; simpl; [|done]. f_equal.
  apply map_eq. intros k. rewrite !lookup_delete, lookup_alter.
  by repeat case_decide.
Qed.

Lemma remove_cases plat name force w :
  remove_case plat name force w (remove plat name force w).
Proof.
  destruct (record w name) as [[info|text]|] eqn:Hr.
  - destruct (returncode info) as [c|] eqn:Hc.
    { rewrite (remove_terminated _ _ _ _ info c) by done.
      by apply (remove_case_terminated _ _ _ _ info c). }
    destruct force.
    + rewrite (remove_proceeds _ _ _ _ info), kill_eq by auto.
      rewrite (send_signal_live _ _ _ _ info)
        by auto using supported_kill_signal.
      destruct (procs w !! pid info) as [[]|] eqn:Hp.
      * by apply (remove_case_killed _ _ _ _ info); [..|rewrite Hp].
      * destruct plat; by apply (remove_case_denied _ _ _ _ info).
      * rewrite deleted_healed.
        by apply (remove_case_killed _ _ _ _ info); [..|rewrite Hp].
    + rewrite (remove_live_noforce _ _ _ info) by done.
      by apply (remove_case_refused _ _ _ _ info).
  - rewrite (remove_torn _ _ _ _ text) by done.
    by apply (remove_case_torn _ _ _ _ text).
  - rewrite remove_missing by done. by apply remove_case_missing.
Qed.

(** X10. A removal that returned has nothing left to do: the name has no record
    any more, and removing it again, with or without force, returns with
    the world unchanged. *)
Theorem remove_idempotent plat name force force' w w1 :
  remove plat name force w = (Return tt, w1) →
  record w1 name = None ∧
  remove plat name force' w1 = (Return tt, w1).
Proof.
  intros Hrm. assert (record w1 name = None) as Hgone.
  { pose proof (remove_cases plat name force w) as Hcase. rewrite Hrm in Hcase.
    inversion Hcase; subst; [done|apply record_deleted..]. }
  split; [done|]. by apply remove_missing.
Qed.

Lemma remove_idempotent_witness :
  remove Posix "run1" false (deleted "run1" sample_world)
    = (Return tt, deleted "run1" sample_world).
Proof.
  apply (remove_idempotent Posix "run1" false false sample_world
           (deleted "run1" sample_world)).
  reflexivity.
Defined.

(** X11. Forced removal of a live entry whose process is gone or is ours
    returns, after exactly one [os.kill] of the recorded pid with the
    platform's kill signal, and the entry directory is removed. *)
Theorem remove_force_gone_or_ours plat name w info :
  record w name = Some (JsonRecord info) →
  returncode info = None →
  procs w !! pid info ≠ Some Foreign →
  remove plat name true w =
    (Return tt, deleted name (signalled (pid info) (kill_signal plat) w)) ∧
  entry (remove plat name true w).2 name = None ∧
  kill_log (remove plat name true w).2
    = (pid info, kill_signal plat) :: kill_log w.
Proof.
  intros Hr Hc Hp.
  assert (remove plat name true w =
            (Return tt, deleted name (signalled (pid info) (kill_signal plat) w)))
    as ->.
  { pose proof (remove_cases plat name true w) as Hcase.
    inversion Hcase as [Hr'|? Hr'|? Hr'|? ? Hr' Hc'|? Hr' Hc' _ Hp'|? ? ? Hr' _ _ Hp'];
      rewrite Hr in Hr'; try done; injection Hr' as <-; [congruence|done..]. }
  split; [done|]. split; [|done]. simpl. rewrite entry_deleted. by case_decide.
Qed.

Lemma remove_force_gone_or_ours_witness :
  remove Posix "run2" true sample_world
    = (Return tt, deleted "run2" (signalled 4242 signal.SIGKILL sample_world)).
Proof.
  apply (remove_force_gone_or_ours Posix "run2" sample_world
           (sample_info 4242 None "run2")).
  - reflexivity.
  - reflexivity.
  - discriminate.
Defined.

(** ** What no operation does *)

Lemma live_backwards w w' name info :
  evolves w w' →
  record w' name = Some (JsonRecord info) →
  returncode info = None →
  record w name = Some (JsonRecord info).
Proof.
  intros [_ Hn] Hr Hc. specialize (Hn name). unfold record in *.
  destruct Hn as [e|e|e info' Hf Hc']; [done..|].
  simpl in Hr. injection Hr as <-. discriminate Hc.
Qed.

Lemma safe_refl w : safe w w.
Proof.
  split; [apply evolves_refl|]. split; [|by left].
  exists []. split; [done|]. intros p sig Hin. inversion Hin.
Qed.

Lemma safe_trans w1 w2 w3 : safe w1 w2 → safe w2 w3 → safe w1 w3.
Proof.
  intros (He12 & (c12 & Hl12 & Hc12) & Ht12) (He23 & (c23 & Hl23 & Hc23) & Ht23).
  split; [by eapply evolves_trans|]. split.
  - exists (c23 ++ c12). split; [by rewrite Hl23, Hl12, app_assoc|].
    intros p sig [Hin|Hin]%elem_of_app; [|by eauto].
    destruct (Hc23 p sig Hin) as (name & info & Hr & Hc & Hp).
    exists name, info. split; [|done]. by eapply live_backwards.
  - intros name.
    destruct (Ht12 name) as [H12|?]; [|by right].
    destruct (Ht23 name) as [H23|[info Hr]].
    + left. congruence.
    + right. exists info. by rewrite <- (record_of_entry _ _ _ H12).
Qed.

Lemma safe_signalled name info sig w :
  record w name = Some (JsonRecord info) →
  returncode info = None →
  safe w (signalled (pid info) sig w).
Proof.
  intros Hr Hc. split; [apply evolves_signalled|]. split; [|by left].
  exists [(pid info, sig)]. split; [done|].
  intros p s [= -> ->]%list_elem_of_singleton. by exists name, info.
Qed.

Lemma safe_healed name info sig w :
  record w name = Some (JsonRecord info) →
  returncode info = None →
  safe w (healed name info (pid info) sig w).
Proof.
  intros Hr Hc. split; [by apply evolves_healed|]. split.
  - exists [(pid info, sig)]. split; [done|].
    intros p s [= -> ->]%list_elem_of_singleton. by exists name, info.
  - intros other. rewrite entry_healed.
    case_decide; [subst other; right; by exists info|by left].
Qed.

Lemma safe_deleted name info w :
  record w name = Some (JsonRecord info) →
  safe w (deleted name w).
Proof.
  intros Hr. split; [apply evolves_deleted|]. split.
  - exists []. split; [done|]. intros p sig Hin. inversion Hin.
  - intros other. rewrite entry_deleted.
    case_decide; [subst other; right; by exists info|by left].
Qed.

Lemma send_signal_safe plat name sig w :
  safe w (send_signal plat name sig w).2.
Proof.
  destruct (send_signal_world plat name sig w)
    as [->|(info & Hr & Hc & [->| ->])].
  - apply safe_refl.
  - by apply (safe_signalled name).
  - by apply safe_healed.
Qed.

Lemma remove_safe plat name force w :
  safe w (remove plat name force w).2.
Proof.
  destruct (remove_cases plat name force w); simpl;
    try apply safe_refl.
  - by apply (safe_deleted _ info).
  - eapply safe_trans; [by apply (safe_signalled name info)|].
    by apply (safe_deleted _ info).
  - by apply (safe_signalled name info).
Qed.

Lemma cleanup_from_safe plat force names w :
  safe w (cleanup_from plat force names w).2.
Proof.
  revert w. induction names as [|name rest IH]; intros w.
  - apply safe_refl.
  - rewrite cleanup_from_cons.
    pose proof (remove_safe plat name force w) as Hr.
    destruct (remove plat name force w) as [[[]|[]] w1]; simpl in *; try done;
      (eapply safe_trans; [exact Hr|apply IH]).
Qed.

Lemma run_safe plat op w : safe w (run plat op w).2.
Proof.
  destruct op as [name sig|name|name|name force|force]; simpl.
  - apply send_signal_safe.
  - apply send_signal_safe.
  - rewrite kill_eq. apply send_signal_safe.
  - apply remove_safe.
  - apply cleanup_from_safe.
Qed.



(** X13. No operation touches an entry directory whose record file is missing
    or is not JSON; not even [cleanup] with force removes it. *)
Theorem unloadable_entry_untouched plat op w name :
  (∀ info, record w name ≠ Some (JsonRecord info)) →
  entry (run plat op w).2 name = entry w name.
Proof.
  intros Hno. destruct (run_safe plat op w) as (_ & _ & Ht).
  destruct (Ht name) as [?|[info Hr]]; [done|]. by destruct (Hno info).
Qed.

Lemma unloadable_entry_untouched_witness :
  entry (cleanup Posix true own_world).2 "empty" = entry own_world "empty".
Proof.
  apply (unloadable_entry_untouched Posix (Cleanup true) own_world "empty").
  intros info Hr. discriminate Hr.
Defined.

(** X14. [send_signal], [terminate], [kill] and [remove] on one name leave the
    directory of every other name as it was. *)
Theorem single_entry_ops_frame plat op w name other :
  op_target op = Some name →
  other ≠ name →
  entry (run plat op w).2 other = entry w other.
Proof.
  intros Hop Hne.
  assert (∀ sig, entry (send_signal plat name sig w).2 other = entry w other)
    as Hsend.
  { intros sig. destruct (send_signal_world plat name sig w)
      as [->|(info & _ & _ & [->| ->])]; [done..|].
    rewrite entry_healed. by case_decide. }
  destruct op as [n sig|n|n|n force|force]; simplify_eq/=; try apply Hsend.
  - rewrite kill_eq. apply Hsend.
  - destruct (remove_cases plat name force w); simpl;
      rewrite ?entry_deleted; by repeat case_decide.
Qed.

Lemma single_entry_ops_frame_witness :
  entry (remove Posix "run2" true sample_world).2 "abc" = entry sample_world "abc".
Proof.
  apply (single_entry_ops_frame Posix (Remove "run2" true) sample_world
           "run2" "abc").
  - reflexivity.
  - discriminate.
Defined.

(** ** How [remove] and [cleanup] can fail *)

Lemma torn_backwards w w' name text :
  safe w w' →
  record w' name = Some (NotJson text) →
  record w name = Some (NotJson text).
Proof.
  intros ([_ Hn] & _ & Ht) Hr.
  destruct (Ht name) as [He|[info Hi]].
  - by rewrite <- (record_of_entry _ _ _ He).
  - exfalso. specialize (Hn name). unfold record in *.
    destruct Hn as [e|e|e info' Hf Hc]; [congruence|done|done].
Qed.

Lemma none_forward w w' name :
  safe w w' → record w name = None → record w' name = None.
Proof.
  intros (_ & _ & Ht) Hr. destruct (Ht name) as [He|[info Hi]]; [|congruence].
  by rewrite (record_of_entry _ _ _ He).
Qed.



Lemma cleanup_from_raises plat force names w e :
  (cleanup_from plat force names w).1 = Raise e →
  (e = JSONDecodeError ∧ ∃ name text, record w name = Some (NotJson text)) ∨
  (force = true ∧
   ∃ err winerror name info,
     e = OSError err winerror ∧ record w name = Some (JsonRecord info) ∧
     returncode info = None ∧ procs w !! pid info = Some Foreign).
Proof.
  revert w. induction names as [|name rest IH]; intros w; [done|].
  rewrite cleanup_from_cons.
  assert (∀ w1, safe w w1 →
            (cleanup_from plat force rest w1).1 = Raise e →
            (e = JSONDecodeError ∧
             ∃ name text, record w name = Some (NotJson text)) ∨
            (force = true ∧
             ∃ err winerror name info,
               e = OSError err winerror ∧
               record w name = Some (JsonRecord info) ∧
               returncode info = None ∧ procs w !! pid info = Some Foreign))
    as Hlater.
  { intros w1 Hsafe Hrest.
    destruct (IH w1 Hrest)
      as [[-> (n & t & Hr)]|[-> (err & we & n & info & -> & Hr & Hc & Hp)]].
    - left. split; [done|]. exists n, t. by eapply torn_backwards.
    - right. split; [done|]. exists err, we, n, info.
      destruct Hsafe as (He & _). split; [done|].
      split; [by eapply live_backwards|]. split; [done|].
      destruct He as [<- _]. done. }
  pose proof (remove_safe plat name force w) as Hsafe.
  destruct (remove_cases plat name force w); simpl in *; try by apply Hlater.
  - intros [= <-]. left. eauto.
  - intros [= <-]. right. split; [done|]. by exists err, winerror, name, info.
Qed.



(** ** [cleanup] with force, and [cleanup] twice *)

Lemma cleanup_from_force_returns plat names w :
  (cleanup_from plat true names w).1 = Return tt →
  ∀ name, name ∈ names →
          record (cleanup_from plat true names w).2 name = None.
Proof.
  revert w. induction names as [|name rest IH]; intros w Hret n Hin.
  { inversion Hin. }
  rewrite cleanup_from_cons in *.
  assert (∀ w1, record w1 name = None →
            (cleanup_from plat true rest w1).1 = Return () →
            record (cleanup_from plat true rest w1).2 n = None) as Hgo.
  { intros w1 Hgone Hrest. apply elem_of_cons in Hin as [->|Hin].
    - eapply none_forward; [apply cleanup_from_safe|done].
    - by apply IH. }
  destruct (remove_cases plat name true w); simpl in *; try done;
    apply Hgo; try done; apply record_deleted.
Qed.

Lemma omap_loaded_none w names :
  (∀ name, record w name = None) → omap (loaded w) names = [].
Proof.
  intros Hnone. induction names as [|name rest IH]; [done|].
  simpl. unfold loaded at 1. by rewrite Hnone.
Qed.

Lemma cleanup_force_returned plat w :
  (cleanup plat true w).1 = Return tt →
  (∀ name, record (cleanup plat true w).2 name = None) ∧
  processes (cleanup plat true w).2 = ([], Return tt).
Proof.
  intros Hret.
  assert (∀ name, record (cleanup plat true w).2 name = None) as Hnone.
  { intros name. destruct (entry w name) as [e|] eqn:He.
    - apply cleanup_from_force_returns; [done|]. apply elem_of_iter. eauto.
    - eapply none_forward; [apply cleanup_from_safe|].
      unfold record. by rewrite He. }
  split; [done|]. unfold processes.
  rewrite processes_from_decoding.
  - by rewrite omap_loaded_none.
  - intros name _ text. by rewrite Hnone.
Qed.

(** X17. When [cleanup] with force returns, no record is left in the registry:
    the enumeration that follows yields nothing. *)
Theorem cleanup_force_empties plat w :
  (cleanup plat true w).1 = Return tt →
  (∀ name, record (cleanup plat true w).2 name = None) ∧
  processes (cleanup plat true w).2 = ([], Return tt).
Proof. apply cleanup_force_returned. Qed.

Lemma cleanup_force_empties_witness :
  processes (cleanup Posix true own_world).2 = ([], Return tt).
Proof.
  apply (cleanup_force_empties Posix own_world). reflexivity.
Defined.

(** X18. Over a registry whose record files all decode and whose live records
    name no process of another owner, [cleanup] with force returns, and it
    leaves no record behind. *)
Theorem cleanup_force_succeeds plat w :
  all_records_decode w →
  (∀ name info, record w name = Some (JsonRecord info) →
     returncode info = None → procs w !! pid info ≠ Some Foreign) →
  (cleanup plat true w).1 = Return tt ∧
  (∀ name, record (cleanup plat true w).2 name = None) ∧
  processes (cleanup plat true w).2 = ([], Return tt).
Proof.
  intros Hok Hours.
  assert ((cleanup plat true w).1 = Return tt) as Hret.
  { destruct (cleanup plat true w).1 as [[]|e] eqn:Hout; [done|].
    destruct (cleanup_from_raises plat true (__iter__ w) w e Hout)
      as [[_ (n & t & Hr)]|[_ (err & we & n & info & _ & Hr & Hc & Hp)]].
    - by destruct (Hok n t).
    - by destruct (Hours n info). }
  split; [done|]. by apply cleanup_force_returned.
Qed.

Lemma cleanup_force_succeeds_witness :
  (cleanup Posix true own_world).1 = Return tt ∧
  processes (cleanup Posix true own_world).2 = ([], Return tt).
Proof.
  destruct (cleanup_force_succeeds Posix own_world) as (Hret & _ & Hproc).
  - apply records_decode_spec. reflexivity.
  - intros name info Hr Hc Hp.
    assert (pid info = 1) as Hpid.
    { destruct (decide (pid info = 4242)) as [Heq|Hne].
      - rewrite Heq in Hp. discriminate Hp.
      - unfold own_world in Hp; simpl in Hp.
        rewrite lookup_insert_ne in Hp by done. discriminate Hp. }
    unfold own_world in Hp; simpl in Hp. rewrite Hpid in Hp. discriminate Hp.
  - split; [exact Hret | exact Hproc].
Defined.

Lemma cleanup_from_noforce_fixpoint plat names w :
  all_records_decode w →
  (∀ name, ¬ terminated w name) →
  cleanup_from plat false names w = (Return tt, w).
Proof.
  intros Hok Hnt. induction names as [|name rest IH]; [done|].
  rewrite cleanup_from_cons.
  destruct (remove_cases plat name false w); try done.
  - by destruct (Hok name text).
  - destruct (Hnt name). by exists info, c.
Qed.

(** X19. Over a registry whose record files all decode, [cleanup] without force
    leaves nothing for a second run to do: run again at once, it returns
    with the world unchanged. *)
Theorem cleanup_noforce_idempotent plat w :
  all_records_decode w →
  cleanup plat false (cleanup plat false w).2
    = (Return tt, (cleanup plat false w).2).
Proof.
  intros Hok. unfold cleanup at 1.
  pose proof (cleanup_from_noforce_pruned plat (__iter__ w) w) as Hp.
  destruct (cleanup_from_noforce_complete plat (__iter__ w) w Hok) as [_ Hrm].
  fold (cleanup plat false w) in Hp, Hrm.
  apply cleanup_from_noforce_fixpoint.
  - by eapply all_records_decode_pruned.
  - intros name Ht. destruct Hp as (_ & _ & Hn).
    destruct (Hn name) as [He|[He _]].
    + assert (terminated w name) as Ht' by (by eapply terminated_of_entry).
      assert (name ∈ __iter__ w) as Hin.
      { apply elem_of_iter. destruct Ht' as (info & c & Hr & _).
        destruct (record_entry _ _ _ Hr) as (e & -> & _). eauto. }
      specialize (Hrm name Hin Ht').
      destruct Ht as (info & c & Hr & _). unfold record in Hr.
      by rewrite Hrm in Hr.
    + destruct Ht as (info & c & Hr & _). unfold record in Hr.
      by rewrite He in Hr.
Qed.

Lemma cleanup_noforce_idempotent_witness :
  cleanup Posix false (cleanup Posix false sample_world).2
    = (Return tt, (cleanup Posix false sample_world).2).
Proof.
  apply (cleanup_noforce_idempotent Posix sample_world).
  apply records_decode_spec. reflexivity.
Defined.

(** ** What [processes] yields *)

Lemma processes_from_sound names w name info :
  (name, info) ∈ (processes_from names w).1 →
  record w name = Some (JsonRecord info).
Proof.
  induction names as [|n rest IH]; simpl; [by intros ?%elem_of_nil|].
  unfold __getitem__.
  destruct (record w n) as [[i|t]|] eqn:Hr; [|by intros ?%elem_of_nil|done].
  destruct (processes_from rest w) as [ys r]. simpl in *.
  intros [[= -> ->]|Hin]%elem_of_cons; [done|by apply IH].
Qed.

Lemma processes_from_sublist names w :
  (processes_from names w).1.*1 `sublist_of` names.
Proof.
  induction names as [|n rest IH]; simpl; [done|].
  unfold __getitem__.
  destruct (record w n) as [[i|t]|] eqn:Hr.
  - destruct (processes_from rest w) as [ys r]. simpl in *.
    by apply sublist_skip.
  - apply sublist_nil_l.
  - by apply sublist_cons.
Qed.

(** X20. Every pair that [processes] yields is a name of the registry with the
    record its file holds, and no name is yielded twice, even when the
    enumeration is cut short; when every record file decodes, every record
    of the registry is yielded. *)
Theorem processes_sound_complete w :
  (∀ name info, (name, info) ∈ (processes w).1 →
     record w name = Some (JsonRecord info)) ∧
  NoDup (processes w).1.*1 ∧
  (all_records_decode w →
   ∀ name info, record w name = Some (JsonRecord info) →
     (name, info) ∈ (processes w).1).
Proof.
  unfold processes. split; [|split].
  - intros name info. apply processes_from_sound.
  - eapply sublist_NoDup; [apply iter_nodup|apply processes_from_sublist].
  - intros Hok name info Hr. rewrite processes_from_decoding.
    + simpl. apply list_elem_of_omap. exists name. split.
      * apply elem_of_iter. destruct (record_entry _ _ _ Hr) as (e & -> & _).
        eauto.
      * unfold loaded. by rewrite Hr.
    + intros n _. apply Hok.
Qed.

Lemma processes_sound_complete_witness :
  ("run1", sample_info 4100 (Some 0) "run1") ∈ (processes sample_world).1.
Proof.
  apply (processes_sound_complete sample_world).
  - apply records_decode_spec. reflexivity.
  - reflexivity.
Defined.

(** ** The task descriptor: [__init__] and [run] *)

Lemma py_or_nonempty x y : y ≠ "" → py_or x y ≠ "".
Proof.
  intros Hy. unfold py_or. destruct x as [s|]; [|done]. by case_bool_decide.
Qed.

(** X21. The descriptor that [run] builds carries the command as its one
    positional argument and exactly the keywords "name" and "wdir", the
    latter being the manager's directory joined with the former.  An empty
    name, task or manager directory counts as none given: the generated
    id, the default task and the current directory stand in, so that none
    of the three is ever empty once the generated id is not; a name and a
    task that are given and not empty are passed on as they are. *)
Theorem run_descriptor join uuid root_dir args name task :
  let self_wdir := ProcessManager.__init__ root_dir in
  let s := ProcessManager.run join uuid self_wdir args name task in
  sig_args s = [args] ∧
  dom (sig_kwargs s) = {["name"; "wdir"]} ∧
  sig_kwargs s !! "name" = Some (py_or name uuid) ∧
  sig_kwargs s !! "wdir" = Some (join self_wdir (py_or name uuid)) ∧
  (∀ n, name = Some n → n ≠ "" → sig_kwargs s !! "name" = Some n) ∧
  (∀ t, task = Some t → t ≠ "" → sig_task s = t) ∧
  (uuid ≠ "" → sig_kwargs s !! "name" ≠ Some "") ∧
  sig_task s ≠ "" ∧ self_wdir ≠ "" ∧
  ProcessManager.run join uuid self_wdir args (Some "") task
    = ProcessManager.run join uuid self_wdir args None task ∧
  ProcessManager.run join uuid self_wdir args name (Some "")
    = ProcessManager.run join uuid self_wdir args name None ∧
  ProcessManager.__init__ (Some "") = ProcessManager.__init__ None.
Proof.
  simpl. unfold ProcessManager.run, ProcessManager.__init__; simpl.
  repeat split.
  - intros n -> Hn. rewrite lookup_insert_eq. unfold py_or.
    by rewrite bool_decide_eq_false_2.
  - intros t -> Ht. unfold py_or. by rewrite bool_decide_eq_false_2.
  - intros Hu. rewrite lookup_insert_eq. intros [= Hn].
    by apply (py_or_nonempty name uuid).
  - by apply py_or_nonempty.
  - by apply py_or_nonempty.
Qed.

Lemma run_descriptor_witness :
  sig_kwargs (ProcessManager.run (λ a b, a +:+ "/" +:+ b) "3kTMd"
                (ProcessManager.__init__ None) (Argv ["sleep"; "1"])
                (Some "") None) !! "name" ≠ Some "".
Proof.
  apply (run_descriptor (λ a b, a +:+ "/" +:+ b) "3kTMd" None
           (Argv ["sleep"; "1"]) (Some "") None).
  discriminate.
Defined.

(** ** [utils.remove] *)

Ltac utils_unfold :=
  unfold utils.remove, utils._unlink, utils._chmod, try_except,
    mbind, M_bind, bind, mret, M_ret, ret, raise.

(** X22. Whatever the file system answers, [remove] does not let an error
    "no such file or directory" out: an [OSError] that reaches the caller
    has another [errno]. *)
Theorem utils_remove_never_enoent fs path w e :
  (utils.remove fs path w).1 = Raise e →
  errno_of e ≠ Some errno.ENOENT.
Proof.
  unfold utils.remove, try_except, raise, ret.
  destruct (if os_path_isdir fs path w then _ else _) as [[[]|exc] w1];
    [done|].
  destruct (is_OSError exc) eqn:Hos.
  - case_bool_decide as Hne; simpl; [by intros [= <-]|done].
  - simpl. intros [= <-]. by destruct exc.
Qed.

Lemma utils_remove_never_enoent_witness :
  errno_of (OSError errno.EACCES None) ≠ Some errno.ENOENT.
Proof.
  apply (utils_remove_never_enoent
           {| os_path_isdir := λ _ _, false;
              os_lstat := λ _ w, (Return 33060, w);
              os_chmod := λ _ _ w, (Raise (OSError errno.EPERM None), w);
              os_unlink := λ _ w, (Raise (OSError errno.EACCES None), w);
              shutil_rmtree := λ _ _ w, (Return tt, w) |}
           "out.log" sample_world).
  reflexivity.
Defined.

(** X23. A path that is not there is removed without error: when it is no
    directory and both [os.unlink] and the [os.lstat] of the handler
    answer "no such file", [remove] returns, and the world is the one
    those two calls left. *)
Theorem utils_remove_missing_path fs path w w1 w2 winerror winerror' :
  os_path_isdir fs path w = false →
  os_unlink fs path w = (Raise (OSError errno.ENOENT winerror), w1) →
  os_lstat fs path w1 = (Raise (OSError errno.ENOENT winerror'), w2) →
  utils.remove fs path w = (Return tt, w2).
Proof.
  intros Hdir Hunlink Hlstat. utils_unfold.
  by rewrite Hdir, Hunlink; simpl; rewrite Hlstat.
Qed.

Lemma utils_remove_missing_path_witness :
  utils.remove registry_fs "ghost" sample_world = (Return tt, sample_world).
Proof.
  apply (utils_remove_missing_path registry_fs "ghost" sample_world
           sample_world sample_world None None); reflexivity.
Defined.

(** X24. A file that cannot be unlinked is made writable and unlinked again,
    once.  The mode handed to [os.chmod] is the file's mode with the
    owner's write bit set and every other bit kept.  When [os.chmod]
    succeeds, or fails with ENOENT or EPERM, the outcome of [remove] is
    that of the second [os.unlink], "no such file" counting as success;
    the first error is dropped. *)
Theorem utils_remove_retries_unlink fs path w e w1 perm w2 c w3 :
  os_path_isdir fs path w = false →
  os_unlink fs path w = (Raise e, w1) →
  is_OSError e = true →
  os_lstat fs path w1 = (Return perm, w2) →
  os_chmod fs path (Z.lor perm stat.S_IWRITE) w2 = (c, w3) →
  (c = Return tt ∨
   ∃ winerror, c = Raise (OSError errno.ENOENT winerror) ∨
               c = Raise (OSError errno.EPERM winerror)) →
  Z.testbit (Z.lor perm stat.S_IWRITE) 7 = true ∧
  (∀ i, i ≠ 7 →
     Z.testbit (Z.lor perm stat.S_IWRITE) i = Z.testbit perm i) ∧
  utils.remove fs path w =
    match os_unlink fs path w3 with
    | (Return _, w4) => (Return tt, w4)
    | (Raise e', w4) =>
        if is_OSError e' && bool_decide (errno_of e' = Some errno.ENOENT)
        then (Return tt, w4) else (Raise e', w4)
    end.
Proof.
  intros Hdir Hunlink He Hlstat Hchmod Hc. split; [|split].
  - rewrite Z.lor_spec. change (Z.testbit stat.S_IWRITE 7) with true.
    apply orb_true_r.
  - intros i Hi. rewrite Z.lor_spec.
    assert (Z.testbit stat.S_IWRITE i = false) as ->; [|apply orb_false_r].
    change stat.S_IWRITE with (2 ^ 7). destruct (Z.neg_nonneg_cases i).
    + by apply Z.testbit_neg_r.
    + by apply Z.pow2_bits_false.
  - assert (bool_decide (Some errno.ENOENT ∉
                           [Some errno.ENOENT; Some errno.EPERM]) = false)
      as Hnoent by reflexivity.
    assert (bool_decide (Some errno.EPERM ∉
                           [Some errno.ENOENT; Some errno.EPERM]) = false)
      as Hperm by reflexivity.
    utils_unfold. rewrite Hdir, Hunlink, He. cbn beta iota.
    rewrite Hlstat. cbn beta iota zeta. rewrite Hchmod.
    destruct Hc as [->|(we & [->| ->])]; cbn [is_OSError errno_of];
      rewrite ?Hnoent, ?Hperm;
      (destruct (os_unlink fs path w3) as [[[]|e'] w4]; [done|];
       destruct (is_OSError e'); simpl; [|done];
       by repeat case_bool_decide).
Qed.

Lemma utils_remove_retries_unlink_witness :
  utils.remove
    {| os_path_isdir := λ _ _, false;
       os_lstat := λ _ w, (Return 33060, w);
       os_chmod := λ _ _ w, (Raise (OSError errno.EPERM None), w);
       os_unlink := λ _ w, (Raise (OSError errno.EACCES None), w);
       shutil_rmtree := λ _ _ w, (Return tt, w) |}
    "out.log" sample_world
  = (Raise (OSError errno.EACCES None), sample_world).
Proof.
  refine (proj2 (proj2 (utils_remove_retries_unlink
           {| os_path_isdir := λ _ _, false;
              os_lstat := λ _ w, (Return 33060, w);
              os_chmod := λ _ _ w, (Raise (OSError errno.EPERM None), w);
              os_unlink := λ _ w, (Raise (OSError errno.EACCES None), w);
              shutil_rmtree := λ _ _ w, (Return tt, w) |}
           "out.log" sample_world (OSError errno.EACCES None) sample_world
           33060 sample_world (Raise (OSError errno.EPERM None)) sample_world
           _ _ _ _ _ _))); try reflexivity.
  right. exists None. by right.
Defined.

(** X25. Over the registry directory, [utils.remove] of an entry's path is the
    removal that [__delitem__] relies on: the directory goes with all it
    holds when it exists, and nothing happens when it does not. *)
Theorem utils_remove_registry key w :
  utils.remove registry_fs key w = remove_path key w.
Proof.
  utils_unfold. unfold remove_path. simpl.
  destruct (bool_decide (is_Some (entry w key))) eqn:Hdir; [done|].
  apply bool_decide_eq_false_1 in Hdir as He. simpl. rewrite Hdir. simpl.
  f_equal. destruct w as [[d|] ps l]; unfold set_root; simpl; [|done].
  do 2 f_equal. symmetry. apply delete_id.
  unfold entry in He; simpl in He. by apply eq_None_not_Some.
Qed.
